(** * Incremental scraper: pattern extraction, dedup store, checkpoints

    A shallow embedding of the scanning core of [fixed.scr.py]
    ([is_card_seen], [mark_card_seen], [get_last_msg_id],
    [update_last_msg_id], [scrape_new_messages]) and the properties of the
    incremental scan that follow from it.

    Strings are lists of 8-bit characters read as Latin-1 code points; in
    that range the decimal digits of Python's [\d] are exactly '0'..'9'.
    Integers are unbounded ([Z]), as Python's are.

    Telegram and the clock are an environment the scan is given: what
    [get_chat] answers, what the iterator of [search_messages] delivers and
    whether it raises, what [datetime.utcnow] reads. SQLite is modelled by
    its two tables, as lists of rows under their primary keys, and by a
    journal of the statements executed; it answers every statement, so
    inside the [try] of the scan only the iterator raises. SHA-256 is a
    parameter. Scans run one after the other. *)

From Stdlib Require Import String Ascii List ZArith Lia Bool DecimalString.
Import ListNotations.

Set Implicit Arguments.

(* ================================================================= *)
(** ** Strings *)

Definition str := list ascii.

Definition lit (s : string) : str := list_ascii_of_string s.

Fixpoint str_eqb (a b : str) : bool :=
  match a, b with
  | [], [] => true
  | x :: a', y :: b' => Ascii.eqb x y && str_eqb a' b'
  | _, _ => false
  end.

Definition is_digit (c : ascii) : bool :=
  (48 <=? nat_of_ascii c)%nat && (nat_of_ascii c <=? 57)%nat.

(** [s.startswith(p)] *)
Fixpoint startswith (s p : str) {struct p} : bool :=
  match p with
  | [] => true
  | y :: p' => match s with
               | [] => false
               | x :: s' => Ascii.eqb x y && startswith s' p'
               end
  end.

(** [p in s] for strings *)
Fixpoint contains (s p : str) : bool :=
  startswith s p || match s with [] => false | _ :: s' => contains s' p end.

(** [str.lower()] on Latin-1: A-Z and the accented capitals except the
    multiplication sign move up by 32; nothing else changes. *)
Definition lower_char (c : ascii) : ascii :=
  let n := nat_of_ascii c in
  if ((65 <=? n) && (n <=? 90) ||
      (192 <=? n) && (n <=? 222) && negb (n =? 215))%nat
  then ascii_of_nat (n + 32) else c.

Definition lower (s : str) : str := map lower_char s.

(** [s[-2:]] *)
Definition last2 (s : str) : str := skipn (length s - 2) s.

(** Python truthiness of the values the scan tests. *)
Definition truthy_str (s : option str) : bool :=
  match s with Some (_ :: _) => true | _ => false end.

Definition truthy_int (z : option Z) : bool :=
  match z with Some v => negb (v =? 0)%Z | None => false end.

(* ================================================================= *)
(** ** The regular expressions of the scan

    Both patterns of the source are sequences of greedy, quantified
    character classes: [\d{16}\D*\d{2}\D*\d{2,4}\D*\d{3,4}] and [\d+].
    [Re] is a backtracking matcher for that fragment, with [re.findall]'s
    left-to-right, non-overlapping scan. *)

Module Re.

Inductive cclass := Digit | NonDigit.

Definition in_class (k : cclass) (c : ascii) : bool :=
  match k with Digit => is_digit c | NonDigit => negb (is_digit c) end.

(** [cls{lo,hi}], greedy; [hi = None] is unbounded. *)
Record atom := Rep { cls : cclass; lo : nat; hi : option nat }.

Definition regex := list atom.

(** How many leading characters of [s] the class takes, at most [cap]. *)
Fixpoint span (k : cclass) (cap : option nat) (s : str) : nat :=
  match cap, s with
  | Some 0, _ => 0
  | _, [] => 0
  | _, c :: s' =>
      if in_class k c then S (span k (option_map pred cap) s') else 0
  end.

(** Try [k], [k-1], ..., [lo] repetitions, the longest first. *)
Fixpoint backtrack (cont : str -> option nat) (s : str) (lo k : nat)
  : option nat :=
  if (k <? lo)%nat then None
  else match cont (skipn k s) with
       | Some n => Some (k + n)
       | None => match k with
                 | 0 => None
                 | S k' => backtrack cont s lo k'
                 end
       end.

(** Length of the match of [r] anchored at the start of [s]. *)
Fixpoint rmatch (r : regex) (s : str) : option nat :=
  match r with
  | [] => Some 0
  | a :: r' => backtrack (rmatch r') s (lo a) (span (cls a) (hi a) s)
  end.

(** [skip] characters still belong to the previous match. *)
Fixpoint findall_from (r : regex) (s : str) (skip : nat) : list str :=
  match skip with
  | S k => match s with
           | [] => []
           | _ :: s' => findall_from r s' k
           end
  | 0 => match rmatch r s with
         | Some n =>
             firstn n s :: match s with
                           | [] => []
                           | _ :: s' => findall_from r s' (pred n)
                           end
         | None => match s with
                   | [] => []
                   | _ :: s' => findall_from r s' 0
                   end
         end
  end.

Definition findall (r : regex) (s : str) : list str := findall_from r s 0.

(** The language of a regex, as a relation: what the spec calls the
    positional grammar. *)
Definition within (n : nat) (cap : option nat) : Prop :=
  match cap with Some h => n <= h | None => True end.

Inductive matches : regex -> str -> Prop :=
| matches_nil : matches [] []
| matches_cons a r u v :
    Forall (fun c => in_class (cls a) c = true) u ->
    lo a <= length u -> within (length u) (hi a) ->
    matches r v -> matches (a :: r) (u ++ v).

End Re.

(** [r'\d{16}\D*\d{2}\D*\d{2,4}\D*\d{3,4}'] *)
Definition pattern : Re.regex :=
  [ Re.Rep Re.Digit 16 (Some 16); Re.Rep Re.NonDigit 0 None;
    Re.Rep Re.Digit 2 (Some 2);   Re.Rep Re.NonDigit 0 None;
    Re.Rep Re.Digit 2 (Some 4);   Re.Rep Re.NonDigit 0 None;
    Re.Rep Re.Digit 3 (Some 4) ].

(** [r'\d+'] *)
Definition digit_run : Re.regex := [ Re.Rep Re.Digit 1 None ].

(* ================================================================= *)
(** ** The two tables of [cc_scraper.db] and the outside world *)

(** A row of [seen_cards (card_hash TEXT PRIMARY KEY, source TEXT,
    first_seen TIMESTAMP)]. *)
Record seen_row := SeenRow
  { card_hash : str; source : option str; first_seen : Z }.

(** A row of [last_scraped (channel_id INTEGER PRIMARY KEY,
    last_msg_id INTEGER, last_scrape TIMESTAMP)]. *)
Record last_row := LastRow
  { channel_id : Z; last_msg_id : Z; last_scrape : Z }.

(** The statements the scan sends to SQLite, in the order it sends them. *)
Inductive sql :=
| SelectSeen (h : str)
| InsertSeen (h : str) (src : option str) (ts : Z)
| SelectLast (cid : Z)
| ReplaceLast (cid pos ts : Z).

Record world := World
  { seen_cards : list seen_row;
    last_scraped : list last_row;
    clock : nat;                  (* readings of [datetime.utcnow] so far *)
    journal : list sql }.

Definition empty_db : world := World [] [] 0 [].

Record message := Message
  { msg_id : Z; msg_text : option str; msg_caption : option str }.

(** What the asynchronous iterator [user.search_messages] does when it is
    driven: it ends, yields a message, or raises. *)
Inductive feed :=
| Done
| Raise
| Yield (m : message) (rest : feed).

Record chat := Chat { chat_id : Z; chat_title : option str }.

(** What one call of the scan sees of Telegram and of the wall clock.
    [get_chat] answers [None] when the call raises. *)
Record environ := Environ
  { get_chat : str -> option chat;
    search_messages : Z -> Z -> feed;      (* chat_id, limit *)
    utcnow : nat -> Z }.

(* ================================================================= *)
(** ** State passing *)

Definition M (A : Type) : Type := world -> A * world.

Definition ret {A} (a : A) : M A := fun w => (a, w).

Definition bind {A B} (c : M A) (k : A -> M B) : M B :=
  fun w => let (a, w') := c w in k a w'.

Declare Scope scan_scope.
Delimit Scope scan_scope with scan.
Notation "x <- c ;; k" := (bind c (fun x => k))
  (at level 61, c at next level, right associativity) : scan_scope.
Notation "c ;;; k" := (bind c (fun _ => k))
  (at level 61, right associativity) : scan_scope.
Open Scope scan_scope.

Definition logged (q : sql) (w : world) : world :=
  World (seen_cards w) (last_scraped w) (clock w) (journal w ++ [q]).

Definition execute (q : sql) : M unit := fun w => (tt, logged q w).

Definition now (E : environ) : M Z :=
  fun w => (utcnow E (clock w),
            World (seen_cards w) (last_scraped w) (S (clock w)) (journal w)).

Definition hash_in (h : str) (t : list seen_row) : bool :=
  existsb (fun r => str_eqb (card_hash r) h) t.

Inductive outcome := Inserted | IntegrityError.

(** [SELECT 1 FROM seen_cards WHERE card_hash = ?] *)
Definition select_seen (h : str) : M bool :=
  execute (SelectSeen h) ;;;
  fun w => (hash_in h (seen_cards w), w).

(** [INSERT INTO seen_cards ... VALUES (?, ?, ?)], under the primary key. *)
Definition insert_seen (h : str) (src : option str) (ts : Z) : M outcome :=
  execute (InsertSeen h src ts) ;;;
  fun w => if hash_in h (seen_cards w) then (IntegrityError, w)
           else (Inserted,
                 World (seen_cards w ++ [SeenRow h src ts]) (last_scraped w)
                       (clock w) (journal w)).

(** [SELECT last_msg_id FROM last_scraped WHERE channel_id = ?] *)
Definition select_last (cid : Z) : M (option Z) :=
  execute (SelectLast cid) ;;;
  fun w => (option_map last_msg_id
              (find (fun r => channel_id r =? cid)%Z (last_scraped w)), w).

(** [INSERT OR REPLACE INTO last_scraped ... VALUES (?, ?, ?)] *)
Definition replace_last (cid pos ts : Z) : M unit :=
  execute (ReplaceLast cid pos ts) ;;;
  fun w => (tt,
            World (seen_cards w)
                  (filter (fun r => negb (channel_id r =? cid)%Z)
                          (last_scraped w) ++ [LastRow cid pos ts])
                  (clock w) (journal w)).

(** The stores as an observer sees them, without running a statement. *)
Definition stored_position (cid : Z) (w : world) : option Z :=
  option_map last_msg_id
    (find (fun r => channel_id r =? cid)%Z (last_scraped w)).

Definition hashes (w : world) : list str := map card_hash (seen_cards w).

Definition entries (h : str) (w : world) : nat :=
  length (filter (fun r => str_eqb (card_hash r) h) (seen_cards w)).

Definition same_tables (w w' : world) : Prop :=
  seen_cards w' = seen_cards w /\ last_scraped w' = last_scraped w.

Definition on_checkpoints (q : sql) : bool :=
  match q with SelectLast _ | ReplaceLast _ _ _ => true | _ => false end.

(** The primary identifier of an emitted line: what stands before the
    first bar. *)
Fixpoint primary (line : str) : str :=
  match line with
  | [] => []
  | c :: rest => if Ascii.eqb c "|" then [] else c :: primary rest
  end.

(* ================================================================= *)
(** ** The store functions and the scan *)

Definition opt_eqb (a b : option Z) : bool :=
  match a, b with
  | Some x, Some y => (x =? y)%Z
  | None, None => true
  | _, _ => false
  end.

Definition bar : str := ["|"%char].

(** [f"{card_number}|{mo}|{year}|{cvv}"] *)
Definition formatted (card_number mo year cvv : str) : str :=
  card_number ++ bar ++ mo ++ bar ++ year ++ bar ++ cvv.

(** Lines 143 to 146: the digit runs of a coarse match, unpacked when there
    are four of them, the year cut to its last two characters. *)
Definition parse_match (matched : str) : option (str * str * str * str) :=
  match Re.findall digit_run matched with
  | [card_number; mo; year; cvv] => Some (card_number, mo, last2 year, cvv)
  | _ => None
  end.

(** The local variables of the message loop. *)
Record locals := Locals
  { messages_found : list str;
    count : Z;
    newest_msg_id_in_this_run : option Z }.

(** The arguments of [scrape_new_messages] ([client] is not used). *)
Record request := Request
  { channel_username : str;
    limit : Z;
    start_number : option str;
    bank_name : option str }.

Section Scan.

(** [sha256(s.encode()).hexdigest()] *)
Variable sha256_hexdigest : str -> str.

Variable E : environ.

Definition is_card_seen (card_number : str) (src : option str)
  : M (bool * str) :=
  let card_hash := sha256_hexdigest card_number in
  exists_ <- select_seen card_hash ;;
  ret (exists_, card_hash).

Definition mark_card_seen (card_hash : str) (src : option str) : M unit :=
  ts <- now E ;;
  r <- insert_seen card_hash src ts ;;
  match r with
  | Inserted => ret tt            (* conn.commit() *)
  | IntegrityError => ret tt      (* pass  # Already exists *)
  end.

Definition get_last_msg_id (cid : Z) : M (option Z) := select_last cid.

Definition update_last_msg_id (cid pos : Z) : M unit :=
  ts <- now E ;;
  replace_last cid pos ts.

Variable rq : request.

(** [start_number and not card_number.startswith(start_number[:6])] *)
Definition bin_rejects (card_number : str) : bool :=
  match start_number rq with
  | Some (c :: sn) => negb (startswith card_number (firstn 6 (c :: sn)))
  | _ => false
  end.

(** Lines 148 to 161: the BIN filter, then the dedup check and the
    emission. *)
Definition on_record (title : option str) (rec : str * str * str * str)
           (l : locals) : M locals :=
  let '(card_number, mo, year, cvv) := rec in
  if bin_rejects card_number then ret l
  else
    r <- is_card_seen card_number title ;;
    let (seen, card_hash) := r in
    if negb seen then
      mark_card_seen card_hash title ;;;
      ret (Locals
             (messages_found l ++ [formatted card_number mo year cvv])
             (count l + 1)
             (newest_msg_id_in_this_run l))
    else ret l.

(** The body of [for matched in matched_strings]. *)
Definition on_match (title : option str) (matched : str) (l : locals)
  : M locals :=
  match parse_match matched with
  | Some rec => on_record title rec l
  | None => ret l
  end.

Fixpoint on_matches (title : option str) (ms : list str) (l : locals)
  : M locals :=
  match ms with
  | [] => ret l
  | matched :: rest =>
      l' <- on_match title matched l ;;
      on_matches title rest l'
  end.

(** Lines 124 to 126. *)
Definition track (m : message) (l : locals) : locals :=
  match newest_msg_id_in_this_run l with
  | None => Locals (messages_found l) (count l) (Some (msg_id m))
  | Some n =>
      if (n <? msg_id m)%Z
      then Locals (messages_found l) (count l) (Some (msg_id m))
      else l
  end.

(** [last_msg_id and message.id <= last_msg_id] *)
Definition already_scraped (last : option Z) (m : message) : bool :=
  match last with
  | Some v => negb (v =? 0)%Z && (msg_id m <=? v)%Z
  | None => false
  end.

(** [message.text or message.caption] *)
Definition text_of (m : message) : option str :=
  if truthy_str (msg_text m) then msg_text m else msg_caption m.

(** [bank_name and bank_name.lower() not in text.lower()] *)
Definition bank_rejects (text : str) : bool :=
  match bank_name rq with
  | Some (c :: bn) => negb (contains (lower text) (lower (c :: bn)))
  | _ => false
  end.

(** One turn of the message loop, after the limit test. *)
Definition on_message (title : option str) (last : option Z) (m : message)
           (l : locals) : M locals :=
  let l := track m l in
  if already_scraped last m then ret l
  else match text_of m with
       | Some (c :: t) =>
           let text := c :: t in
           if bank_rejects text then ret l
           else on_matches title (Re.findall pattern text) l
       | _ => ret l
       end.

(** The [async for] over the iterator; [Raise] lands in the [except]
    clause that follows the loop. *)
Fixpoint messages_loop (title : option str) (last : option Z) (f : feed)
         (l : locals) : M locals :=
  match f with
  | Done => ret l
  | Raise => ret l
  | Yield m rest =>
      if (limit rq <=? count l)%Z then ret l        (* break *)
      else
        l' <- on_message title last m l ;;
        messages_loop title last rest l'
  end.

Definition scrape_new_messages : M (list str * option str * option Z) :=
  match get_chat E (channel_username rq) with
  | None => ret ([], Some (lit "Invalid Channel"), Some 0%Z)
  | Some ch =>
      let channel_id := chat_id ch in
      let channel_title := chat_title ch in
      last <- get_last_msg_id channel_id ;;
      l <- messages_loop channel_title last
             (search_messages E channel_id (limit rq * 5))
             (Locals [] 0 last) ;;
      let newest := newest_msg_id_in_this_run l in
      (if truthy_int newest && negb (opt_eqb newest last)
       then match newest with
            | Some n => update_last_msg_id channel_id n
            | None => ret tt
            end
       else ret tt) ;;;
      ret (messages_found l, channel_title,
           if truthy_int newest then newest else last)
  end.

(** The messages the loop takes past its limit test: the ones whose
    position it tracks. *)
Fixpoint observed (title : option str) (last : option Z) (f : feed)
         (l : locals) (w : world) : list message :=
  match f with
  | Done => []
  | Raise => []
  | Yield m rest =>
      if (limit rq <=? count l)%Z then []
      else let (l', w') := on_message title last m l w in
           m :: observed title last rest l' w'
  end.

End Scan.

(** The observed messages of a whole scan of a resolved source. *)
Definition scan_observed (sha : str -> str) (E : environ) (rq : request)
           (ch : chat) (w : world) : list message :=
  let prior := stored_position (chat_id ch) w in
  observed sha E rq (chat_title ch) prior
           (search_messages E (chat_id ch) (limit rq * 5))
           (Locals [] 0 prior) (logged (SelectLast (chat_id ch)) w).

(** The messages a feed delivers before it ends or raises, and whether it
    raises. *)
Fixpoint delivered (f : feed) : list message :=
  match f with
  | Yield m rest => m :: delivered rest
  | _ => []
  end.

Fixpoint raises (f : feed) : bool :=
  match f with
  | Done => false
  | Raise => true
  | Yield _ rest => raises rest
  end.

Fixpoint feed_of (ms : list message) (tail : feed) : feed :=
  match ms with
  | [] => tail
  | m :: ms' => Yield m (feed_of ms' tail)
  end.

(** [max] over positions, [None] for none. *)
Definition opt_max (a : option Z) (z : Z) : option Z :=
  match a with
  | None => Some z
  | Some n => Some (Z.max n z)
  end.

Definition highest (start : option Z) (ms : list message) : option Z :=
  fold_left (fun a m => opt_max a (msg_id m)) ms start.

(** A deployment: scans one after the other against one database, each
    with its own request and its own view of Telegram. *)
Record call := Call { call_env : environ; call_rq : request }.

Fixpoint run (sha : str -> str) (cs : list call)
  : M (list (list str * option str * option Z)) :=
  match cs with
  | [] => ret []
  | c :: cs' =>
      r <- scrape_new_messages sha (call_env c) (call_rq c) ;;
      rs <- run sha cs' ;;
      ret (r :: rs)
  end.

Definition lines_of (r : list str * option str * option Z) : list str :=
  fst (fst r).

Definition position_of (r : list str * option str * option Z) : option Z :=
  snd r.

(** Every line emitted by a run, in order of emission. *)
Definition emitted (rs : list (list str * option str * option Z))
  : list str := flat_map lines_of rs.

(** The digit groups of a coarse match, written with their separators:
    [assemble d [(s1,d1); (s2,d2); ...]] is [d s1 d1 s2 d2 ...], and
    [merged] lists its maximal digit runs: two groups with nothing between
    them are one run. *)
Fixpoint assemble (d : str) (gs : list (str * str)) : str :=
  match gs with
  | [] => d
  | (s, d') :: gs' => d ++ s ++ assemble d' gs'
  end.

Fixpoint merged (d : str) (gs : list (str * str)) : list str :=
  match gs with
  | [] => [d]
  | ([], d') :: gs' => merged (d ++ d') gs'
  | (_ :: _, d') :: gs' => d :: merged d' gs'
  end.

Definition digits (s : str) : Prop := Forall (fun c => is_digit c = true) s.
Definition separators (s : str) : Prop :=
  Forall (fun c => is_digit c = false) s.

(** The positional grammar of the spec: 16 digits, separators, 2 digits,
    separators, 2 to 4 digits, separators, 3 to 4 digits. *)
Definition coarse (d16 s1 d2 s2 dy s3 dc : str) : Prop :=
  digits d16 /\ length d16 = 16 /\ separators s1 /\
  digits d2 /\ length d2 = 2 /\ separators s2 /\
  digits dy /\ 2 <= length dy <= 4 /\ separators s3 /\
  digits dc /\ 3 <= length dc <= 4.

(** ** What a stretch of scanning does to the stores

    [emits sha lines w w'] : between [w] and [w'] the rows appended to
    [seen_cards] are those of the emitted [lines], one for one and in
    order, with hashes that are pairwise different and that were not in the
    table at [w]. *)
Definition hash_of (sha : str -> str) (line : str) : str :=
  sha (primary line).

Definition emits (sha : str -> str) (lines : list str) (w w' : world)
  : Prop :=
  exists rows,
    seen_cards w' = seen_cards w ++ rows /\
    map card_hash rows = map (hash_of sha) lines /\
    NoDup (map card_hash rows) /\
    (forall h, In h (map card_hash rows) -> hash_in h (seen_cards w) = false).

(** [grows] : the same for a stretch of the message loop, with what it does
    to the loop's variables and to the journal. *)
Definition grows (sha : str -> str) (rq : request)
           (l : locals) (w : world) (l' : locals) (w' : world) : Prop :=
  exists new js,
    messages_found l' = messages_found l ++ new /\
    count l' = (count l + Z.of_nat (length new))%Z /\
    emits sha new w w' /\
    last_scraped w' = last_scraped w /\
    journal w' = journal w ++ js /\
    Forall (fun q => on_checkpoints q = false) js /\
    (forall line, In line new ->
       exists c mo y cvv,
         line = formatted c mo y cvv /\ digits c /\ bin_rejects rq c = false).

(** The primary-key constraints of the two tables. *)
Definition keys_unique (w : world) : Prop :=
  NoDup (map card_hash (seen_cards w)) /\
  NoDup (map channel_id (last_scraped w)).

(** Nothing, or something that does not start with a digit. *)
Definition boundary (t : str) : Prop :=
  match t with [] => True | c :: _ => is_digit c = false end.

Definition group_ok (g : str * str) : Prop :=
  separators (fst g) /\ digits (snd g) /\ snd g <> [].

(** No stored position is zero: the scan only writes positions that are
    true for Python. *)
Definition positions_nonzero (w : world) : Prop :=
  Forall (fun r => last_msg_id r <> 0%Z) (last_scraped w).

(** ** Sample inputs

    The spec's scenario: a channel with the message
    ["4111111111111111 12/25 123"], and some more. [sample_sha] stands in
    for SHA-256 where a sample needs a digest: no property below depends on
    which function it is. *)
Definition sample_sha (s : str) : str := lit "sha256:" ++ s.

Definition sample_chat : chat := Chat 100 (Some (lit "chan")).

Definition sample_env (f : feed) : environ :=
  Environ (fun _ => Some sample_chat) (fun _ _ => f) (fun n => Z.of_nat n).

Definition nowhere : environ :=
  Environ (fun _ => None) (fun _ _ => Done) (fun n => Z.of_nat n).

Definition sample_rq : request := Request (lit "@chan") 10 None None.

Definition msg7 : message :=
  Message 7 (Some (lit "4111111111111111 12/25 123")) None.

Definition msg9 : message :=
  Message 9 None
    (Some (lit "4111111111111111|01|2030|999 5500000000000004 03-2027 1234")).

(* ================================================================= *)
(** ** The command handlers

    The Python string functions the handlers use, on Latin-1. *)

(** [str.isspace] of a character: what [split] takes for whitespace. *)
Definition is_space (c : ascii) : bool :=
  let n := nat_of_ascii c in
  ((9 <=? n) && (n <=? 13) || (28 <=? n) && (n <=? 32) ||
   (n =? 133) || (n =? 160))%nat.

(** [s.split()] : the maximal runs of non-whitespace, [cur] being the run
    under way. *)
Fixpoint split_from (cur : str) (s : str) : list str :=
  match s with
  | [] => match cur with [] => [] | _ :: _ => [cur] end
  | c :: s' =>
      if is_space c
      then match cur with
           | [] => split_from [] s'
           | _ :: _ => cur :: split_from [] s'
           end
      else split_from (cur ++ [c]) s'
  end.

Definition split (s : str) : list str := split_from [] s.

(** The whitespace [int] lets stand around a number: Python's, without
    the four separators 28 to 31. *)
Definition is_int_space (c : ascii) : bool :=
  let n := nat_of_ascii c in
  ((9 <=? n) && (n <=? 13) || (n =? 32) || (n =? 133) || (n =? 160))%nat.

Fixpoint int_lstrip (s : str) : str :=
  match s with
  | c :: s' => if is_int_space c then int_lstrip s' else s
  | [] => []
  end.

Definition int_strip (s : str) : str :=
  rev (int_lstrip (rev (int_lstrip s))).

(** [s.isdigit()] : not empty, and every character a digit for Python,
    which counts the superscripts 1, 2 and 3 of Latin-1. *)
Definition isdigit_char (c : ascii) : bool :=
  let n := nat_of_ascii c in
  (is_digit c || (n =? 178) || (n =? 179) || (n =? 185))%nat.

Definition isdigit (s : str) : bool :=
  match s with [] => false | _ :: _ => forallb isdigit_char s end.

Definition digit_value (c : ascii) : Z := Z.of_nat (nat_of_ascii c - 48).

(** The digits of [int(s)] : decimal digits, a single underscore allowed
    between two of them. [need] : a digit must come next. *)
Fixpoint int_body (acc : Z) (need : bool) (s : str) : option Z :=
  match s with
  | [] => if need then None else Some acc
  | c :: s' =>
      if is_digit c then int_body (10 * acc + digit_value c) false s'
      else if Ascii.eqb c "_" && negb need then int_body acc true s'
      else None
  end.

(** [int(s)] ; [None] is [ValueError]. (The bound Python puts on the
    number of digits is above what a Telegram message can hold.) *)
Definition int_of_str (s : str) : option Z :=
  match int_strip s with
  | c :: t =>
      if Ascii.eqb c "+" then int_body 0 true t
      else if Ascii.eqb c "-" then option_map Z.opp (int_body 0 true t)
      else int_body 0 true (c :: t)
  | [] => None
  end.

(** [sep.join(parts)] *)
Fixpoint join (sep : str) (parts : list str) : str :=
  match parts with
  | [] => []
  | [p] => p
  | p :: rest => p ++ sep ++ join sep rest
  end.

(** [s.replace(' ', '_')] *)
Definition underscored (s : str) : str :=
  map (fun c => if Ascii.eqb c " " then "_"%char else c) s.

(** [str(n)] for a length. *)
Definition str_of_nat (n : nat) : str :=
  list_ascii_of_string (NilZero.string_of_uint (Nat.to_uint n)).

Definition newline : str := [ascii_of_nat 10].

(** [body.split("\n")] : how a reader of the file takes it apart. *)
Fixpoint split_lines_from (cur : str) (s : str) : list str :=
  match s with
  | [] => [cur]
  | c :: s' =>
      if Ascii.eqb c (ascii_of_nat 10) then cur :: split_lines_from [] s'
      else split_lines_from (cur ++ [c]) s'
  end.

Definition split_lines (s : str) : list str := split_lines_from [] s.

(** [config.py] is not part of the sources: its three constants are
    parameters. *)
Record config := Config
  { ADMIN_LIMIT : Z; DEFAULT_LIMIT : Z; ADMIN_IDS : list Z }.

(** What the handlers do to Telegram and to the file system, in order. The
    texts of the replies and of the caption are not modelled: an event
    says which reply it is and carries what is put into it (but for the
    link to the user, which [get_user_link] makes for the caption). *)
Inductive event :=
| ReplyFormat                         (* "Format: /advscr channel limit ..." *)
| ReplyLimitExceeded (max_lim : Z)    (* "Limit exceeded. Max: ..." *)
| ReplyInvalidLimit                   (* "Invalid limit." *)
| ReplyScanning                       (* "Scanning for NEW cards..." *)
| EditNoNewCards                      (* "No NEW Credit Cards Found ..." *)
| WriteFile (name body : str)
| DeleteMessage
| SendDocument (name body : str) (source_name : str) (new_cards : nat)
               (last : option Z) (bin_filter bank_filter : option str)
| RemoveFile (name : str)
| ReplyStats (total_cards total_sources : nat)
| ReplyCleared.

(** How a handler ends: it returns, or an exception leaves it.
    [OpenError] is what [aiofiles.open(file_name, 'w')] raises when the
    file cannot be made: [FileNotFoundError] for a name with a slash and
    no such directory, another [OSError] for a name too long. *)
Inductive ending := Returned | AttributeError | OpenError.

(** What a handler sees of the machine it runs on: [stamp] is what
    [datetime.now().strftime("%Y%m%d_%H%M%S")] gives, [creatable] says of
    a file name whether the file system lets the file be made. *)
Record host := Host { stamp : str; creatable : str -> bool }.

(** [send_results]. A [source_name] that is [None] has no [replace]; a
    file that cannot be made ends the handler at the first [open]. Past
    that, the file system and Telegram are taken to do what they are
    asked. *)
Definition send_results (h : host) (unique_messages : list str)
           (source_name : option str) (last : option Z)
           (bin_filter bank_filter : option str) : list event * ending :=
  match unique_messages with
  | [] => ([EditNoNewCards], Returned)
  | _ :: _ =>
      match source_name with
      | None => ([], AttributeError)
      | Some name =>
          let file_name :=
            lit "NEW_x" ++ str_of_nat (length unique_messages) ++ lit "_" ++
            underscored name ++ lit "_" ++ stamp h ++ lit ".txt" in
          let body := join newline unique_messages in
          if creatable h file_name
          then ([WriteFile file_name body;
                 DeleteMessage;
                 SendDocument file_name body name (length unique_messages)
                              last bin_filter bank_filter;
                 RemoveFile file_name],
                Returned)
          else ([], OpenError)
      end
  end.

(** The message that carries a command: [message.text], which is [None]
    when the command came as the caption of a photo or a file (the
    handler's filter reads text or caption), and [message.from_user.id],
    [None] when there is no sender. *)
Record command := Command { cmd_text : option str; from_user : option Z }.

(** The arguments [adv_scr_cmd] builds for the scan, once the limit has
    passed: [args] is [message.text.split()[1:]]. *)
Definition request_of (args : list str) (limit : Z) : request :=
  let third := nth 2 args [] in
  Request (nth 0 args [])
          limit
          (if (2 <? length args)%nat && isdigit third
           then Some third else None)
          (if (2 <? length args)%nat && negb (isdigit third)
           then Some (join (lit " ") (skipn 2 args)) else None).

(** [start_number[:6] if start_number else None] *)
Definition bin_filter_of (start_number : option str) : option str :=
  match start_number with
  | Some (c :: sn) => Some (firstn 6 (c :: sn))
  | _ => None
  end.

Definition max_lim (cfg : config) (user_id : option Z) : Z :=
  match user_id with
  | Some u => if existsb (Z.eqb u) (ADMIN_IDS cfg)
              then ADMIN_LIMIT cfg else DEFAULT_LIMIT cfg
  | None => DEFAULT_LIMIT cfg
  end.

(** [adv_scr_cmd]. With no [message.text] its first line,
    [message.text.split()], raises. *)
Definition adv_scr_cmd (cfg : config) (sha : str -> str) (E : environ)
           (h : host) (message : command)
  : M (list event * ending) :=
  match cmd_text message with
  | None => ret ([], AttributeError)
  | Some text =>
      let args := tl (split text) in
      if (length args <? 2)%nat then ret ([ReplyFormat], Returned)
      else
        match int_of_str (nth 1 args []) with
        | None => ret ([ReplyInvalidLimit], Returned)
        | Some limit =>
            let ceiling := max_lim cfg (from_user message) in
            if (ceiling <? limit)%Z
            then ret ([ReplyLimitExceeded ceiling], Returned)
            else
              let rq := request_of args limit in
              r <- scrape_new_messages sha E rq ;;
              let '(new_cards, source_name, last) := r in
              let (events, e) :=
                send_results h new_cards source_name last
                             (bin_filter_of (start_number rq))
                             (bank_name rq) in
              ret (ReplyScanning :: events, e)
        end
  end.

(** [stats_cmd] : [COUNT( * )] and [COUNT(DISTINCT source)], which leaves
    the rows without a source out. *)
Fixpoint labels (rows : list seen_row) : list str :=
  match rows with
  | [] => []
  | r :: rows' =>
      match source r with
      | Some s => s :: labels rows'
      | None => labels rows'
      end
  end.

Definition stats_cmd (w : world) : event :=
  ReplyStats (length (seen_cards w))
             (length (nodup (list_eq_dec ascii_dec) (labels (seen_cards w)))).

(** [clear_db_cmd] : both [DELETE]s. *)
Definition clear_db_cmd : M event :=
  fun w => (ReplyCleared, World [] [] (clock w) (journal w)).

(** ** Notions the further properties are stated with *)

(** How many coarse matches the text of a message holds. *)
Definition matches_in (m : message) : nat :=
  match text_of m with
  | Some t => length (Re.findall pattern t)
  | None => 0
  end.

(** A feed without the messages at or below position [p]. *)
Fixpoint newer_than (p : Z) (f : feed) : feed :=
  match f with
  | Done => Done
  | Raise => Raise
  | Yield m rest =>
      if (msg_id m <=? p)%Z then newer_than p rest
      else Yield m (newer_than p rest)
  end.

(** The shape of an emitted line: 16 digits, 2 digits, 2 digits and 3 or 4
    digits, with bars between. *)
Definition record_line (line : str) : Prop :=
  exists c mo y cvv,
    line = formatted c mo y cvv /\
    digits c /\ length c = 16 /\ digits mo /\ length mo = 2 /\
    digits y /\ length y = 2 /\ digits cvv /\ 3 <= length cvv <= 4.

(** What of the two tables the scan can read back: the hashes, and the
    position of each channel. The labels and the timestamps are left
    out. *)
Definition keys_of (w : world) : list str * list (Z * Z) :=
  (map card_hash (seen_cards w),
   map (fun r => (channel_id r, last_msg_id r)) (last_scraped w)).

Definition same_keys (w v : world) : Prop := keys_of w = keys_of v.

(** Two computations that return the same and keep the keys the same,
    started on worlds with the same keys. *)
Definition agree {A} (f g : M A) : Prop :=
  forall w v, same_keys w v ->
    fst (f w) = fst (g v) /\ same_keys (snd (f w)) (snd (g v)).

Definition no_newline (s : str) : Prop :=
  Forall (fun c => Ascii.eqb c (ascii_of_nat 10) = false) s.

(** [line] is the record of a coarse match in the text (or the caption,
    for want of text) of one of the messages [pool]. *)
Definition from_messages (pool : list message) (line : str) : Prop :=
  exists m t x c mo y cvv,
    In m pool /\ text_of m = Some t /\ In x (Re.findall pattern t) /\
    parse_match x = Some (c, mo, y, cvv) /\ line = formatted c mo y cvv.

(** ** Which matches [findall] returns, said without the matcher

    [accepts r s] : some prefix of [s] is in the language of [r].
    [greedy r s m] : [m] is the prefix of [s] in the language of [r] in
    which each group, from the left, takes as many characters as it can
    with the rest of the pattern still matching what follows.
    [leftmost r s ms] : [ms] are the matches met going through [s] from
    the left: before each match no position accepts the pattern, the
    match is the greedy one where it starts, and the search goes on
    behind it. *)
Definition accepts (r : Re.regex) (s : str) : Prop :=
  exists u v, s = u ++ v /\ Re.matches r u.

Inductive greedy : Re.regex -> str -> str -> Prop :=
| greedy_nil s : greedy [] s []
| greedy_cons a r u v s' :
    Forall (fun c => Re.in_class (Re.cls a) c = true) u ->
    Re.lo a <= length u -> Re.within (length u) (Re.hi a) ->
    greedy r s' v ->
    (forall u' t, u ++ s' = u' ++ t -> length u < length u' ->
       Forall (fun c => Re.in_class (Re.cls a) c = true) u' ->
       Re.within (length u') (Re.hi a) -> ~ accepts r t) ->
    greedy (a :: r) (u ++ s') (u ++ v).

Inductive leftmost (r : Re.regex) : str -> list str -> Prop :=
| leftmost_none s :
    (forall pre post, s = pre ++ post -> ~ accepts r post) ->
    leftmost r s []
| leftmost_hit gap m rest ms :
    (forall a b, gap = a ++ b -> b <> [] -> ~ accepts r (b ++ m ++ rest)) ->
    greedy r (m ++ rest) m -> m <> [] ->
    leftmost r rest ms ->
    leftmost r (gap ++ m ++ rest) (m :: ms).

(** A sample host: a fixed time stamp, and a file system with no
    directories, where a name with a slash in it cannot be made. *)
Definition sample_host : host :=
  Host (lit "20240101_000000")
       (fun name => negb (existsb (Ascii.eqb "/") name)).

(* ================================================================= *)
(** * Properties *)

(** ** Strings *)

Lemma str_eqb_eq (a b : str) : str_eqb a b = true <-> a = b.
Proof.
  revert b; induction a as [|x a IH]; intros [|y b]; simpl;
    try (split; [discriminate | congruence]); try tauto.
  rewrite andb_true_iff, Ascii.eqb_eq, IH.
  split; [intros [-> ->]; reflexivity | intros H; inversion H; auto].
Qed.

Lemma str_eqb_refl (a : str) : str_eqb a a = true.
Proof. apply str_eqb_eq; reflexivity. Qed.

Lemma str_eqb_neq (a b : str) : str_eqb a b = false <-> a <> b.
Proof.
  destruct (str_eqb a b) eqn:H.
  - apply str_eqb_eq in H. split; [discriminate | congruence].
  - split; [|reflexivity]. intros _ Hab. apply str_eqb_eq in Hab. congruence.
Qed.

Lemma startswith_prefix (s p : str) :
  startswith s p = true <-> exists t, s = p ++ t.
Proof.
  revert s; induction p as [|y p IH]; intros s; simpl.
  - split; [exists s; reflexivity | reflexivity].
  - destruct s as [|x s].
    + split; [discriminate | intros [t H]; discriminate].
    + rewrite andb_true_iff, Ascii.eqb_eq, IH. split.
      * intros [-> [t ->]]. exists t; reflexivity.
      * intros [t H]. inversion H; subst. split; [reflexivity | eauto].
Qed.

Lemma firstn_plus (A : Type) (j m : nat) (s : list A) :
  firstn (j + m) s = firstn j s ++ firstn m (skipn j s).
Proof.
  revert s; induction j as [|j IH]; intros s; simpl; [reflexivity|].
  destruct s as [|x s]; simpl.
  - rewrite firstn_nil. reflexivity.
  - rewrite IH. reflexivity.
Qed.

Lemma primary_digits (c rest : str) :
  digits c -> primary (c ++ bar ++ rest) = c.
Proof.
  induction 1 as [|x c Hx _ IH]; simpl in *; [reflexivity|].
  destruct (Ascii.eqb x "|") eqn:Hb.
  - apply Ascii.eqb_eq in Hb. subst x. discriminate.
  - rewrite IH. reflexivity.
Qed.

Lemma primary_formatted (c mo y cvv : str) :
  digits c -> primary (formatted c mo y cvv) = c.
Proof. intros H. unfold formatted. apply primary_digits, H. Qed.

(** ** The matcher *)

Module ReFacts.
Import Re.

Lemma span_spec k cap s :
  span k cap s <= length s /\ within (span k cap s) cap /\
  Forall (fun c => in_class k c = true) (firstn (span k cap s) s).
Proof.
  revert cap; induction s as [|c s IH]; intros cap.
  - destruct cap as [[|h]|]; simpl; repeat split; auto; lia.
  - destruct cap as [[|h]|]; simpl.
    + repeat split; auto; lia.
    + destruct (in_class k c) eqn:Hc; simpl.
      * destruct (IH (Some h)) as (H1 & H2 & H3). simpl in *.
        repeat split; auto; lia.
      * repeat split; auto; lia.
    + destruct (in_class k c) eqn:Hc; simpl.
      * destruct (IH None) as (H1 & H2 & H3). simpl in *.
        repeat split; auto; lia.
      * repeat split; auto; lia.
Qed.

Lemma backtrack_eq cont s lo k :
  backtrack cont s lo k =
  if (k <? lo)%nat then None
  else match cont (skipn k s) with
       | Some n => Some (k + n)
       | None => match k with
                 | 0 => None
                 | S k' => backtrack cont s lo k'
                 end
       end.
Proof. destruct k; reflexivity. Qed.

Lemma backtrack_sound cont s lo k n :
  backtrack cont s lo k = Some n ->
  exists j m, lo <= j <= k /\ cont (skipn j s) = Some m /\ n = j + m.
Proof.
  revert n; induction k as [|k IH]; intros n; rewrite backtrack_eq.
  - destruct (0 <? lo)%nat eqn:Hlo; [discriminate|].
    apply Nat.ltb_ge in Hlo.
    destruct (cont (skipn 0 s)) as [m|] eqn:Hc; [|discriminate].
    intros [= <-]. exists 0, m. repeat split; auto; lia.
  - destruct (S k <? lo)%nat eqn:Hlo; [discriminate|].
    apply Nat.ltb_ge in Hlo.
    destruct (cont (skipn (S k) s)) as [m|] eqn:Hc.
    + intros [= <-]. exists (S k), m. repeat split; auto; lia.
    + intros H. destruct (IH _ H) as (j & m & Hj & Hm & ->).
      exists j, m. repeat split; auto; lia.
Qed.

Lemma Forall_firstn_le (A : Type) (P : A -> Prop) j k (s : list A) :
  j <= k -> Forall P (firstn k s) -> Forall P (firstn j s).
Proof.
  revert k s; induction j as [|j IH]; intros k s Hjk H; simpl; [constructor|].
  destruct s as [|x s]; [constructor|].
  destruct k as [|k]; [lia|]. simpl in H. inversion H; subst.
  constructor; [assumption|]. apply (IH k); [lia | assumption].
Qed.

(** What the matcher accepts is a prefix of the input in the language of
    the pattern. *)
Lemma rmatch_sound r s n :
  rmatch r s = Some n -> n <= length s /\ matches r (firstn n s).
Proof.
  revert s n; induction r as [|a r IH]; intros s n; simpl.
  - intros [= <-]. split; [lia | constructor].
  - intros H. apply backtrack_sound in H.
    destruct H as (j & m & Hj & Hm & ->).
    destruct (IH _ _ Hm) as [Hlen Hmatch].
    destruct (span_spec (cls a) (hi a) s) as (Hs1 & Hs2 & Hs3).
    rewrite length_skipn in Hlen.
    split; [lia|].
    rewrite firstn_plus.
    assert (Hlj : length (firstn j s) = j) by (rewrite length_firstn; lia).
    constructor; auto.
    + apply Forall_firstn_le with (k := span (cls a) (hi a) s); [lia | auto].
    + lia.
    + rewrite Hlj. destruct (hi a); simpl in *; [lia | exact I].
Qed.

(** Every string [findall] returns is matched somewhere in the input. *)
Lemma findall_from_sound r s skip x :
  In x (findall_from r s skip) ->
  exists pre post n,
    s = pre ++ post /\ rmatch r post = Some n /\ x = firstn n post.
Proof.
  revert skip; induction s as [|c s IH]; intros skip.
  - destruct skip; simpl; [|tauto].
    destruct (rmatch r []) as [n|] eqn:Hm; simpl; [|tauto].
    intros [<-|[]]. exists [], [], n. auto.
  - assert (Hrec : forall k, In x (findall_from r s k) ->
              exists pre post n,
                c :: s = pre ++ post /\ rmatch r post = Some n /\
                x = firstn n post).
    { intros k Hk. destruct (IH _ Hk) as (pre & post & n & -> & Hm & ->).
      exists (c :: pre), post, n. auto. }
    destruct skip; simpl; [|apply Hrec].
    destruct (rmatch r (c :: s)) as [n|] eqn:Hm; [|apply Hrec].
    intros [<-|Hx]; [|eapply Hrec; eauto].
    exists [], (c :: s), n. auto.
Qed.

Lemma findall_sound r s x :
  In x (findall r s) ->
  matches r x /\ exists pre post, s = pre ++ x ++ post.
Proof.
  intros H. apply findall_from_sound in H.
  destruct H as (pre & post & n & -> & Hm & ->).
  apply rmatch_sound in Hm. destruct Hm as [Hn Hm].
  split; [assumption|].
  exists pre, (skipn n post). rewrite firstn_skipn. reflexivity.
Qed.

Lemma findall_from_skip r u t :
  findall_from r (u ++ t) (length u) = findall_from r t 0.
Proof. induction u as [|c u IH]; simpl; auto. Qed.

End ReFacts.

(** ** Digit runs of a coarse match *)

Module Runs.
Import Re ReFacts.

Lemma rmatch_digit_run s :
  rmatch digit_run s =
  match span Digit None s with 0 => None | S k => Some (S k) end.
Proof.
  unfold digit_run. simpl rmatch. rewrite backtrack_eq. simpl lo.
  destruct (span Digit None s) as [|k]; [reflexivity|].
  simpl. rewrite Nat.add_0_r. reflexivity.
Qed.

Lemma span_digits d t :
  digits d -> boundary t -> span Digit None (d ++ t) = length d.
Proof.
  intros Hd Ht. induction Hd as [|c d Hc _ IH]; simpl.
  - destruct t as [|x t]; [reflexivity|]. simpl in *. rewrite Ht. reflexivity.
  - rewrite Hc. simpl. rewrite IH. reflexivity.
Qed.

Lemma runs_nil : findall digit_run [] = [].
Proof. reflexivity. Qed.

Lemma runs_digits d t :
  d <> [] -> digits d -> boundary t ->
  findall digit_run (d ++ t) = d :: findall digit_run t.
Proof.
  intros Hne Hd Ht. destruct d as [|c d]; [congruence|].
  unfold findall. simpl app. cbn [findall_from].
  change (c :: d ++ t) with ((c :: d) ++ t).
  rewrite rmatch_digit_run, span_digits by assumption.
  simpl length. cbv iota beta. simpl pred.
  rewrite findall_from_skip. f_equal.
  simpl. f_equal.
  rewrite firstn_app, firstn_all, Nat.sub_diag. apply app_nil_r.
Qed.

Lemma runs_separators s t :
  separators s -> findall digit_run (s ++ t) = findall digit_run t.
Proof.
  induction 1 as [|c s Hc _ IH]; [reflexivity|].
  unfold findall in *. simpl app. cbn [findall_from].
  rewrite rmatch_digit_run. simpl. rewrite Hc. exact IH.
Qed.

Lemma assemble_app d d' gs :
  assemble (d ++ d') gs = d ++ assemble d' gs.
Proof. destruct gs as [|[s e] gs]; simpl; rewrite <- ?app_assoc; auto. Qed.

(** The runs [re.findall(r'\d+', ...)] returns on a string of digit
    groups are its maximal digit runs. *)
Lemma runs_assemble gs : forall d,
  d <> [] -> digits d -> Forall group_ok gs ->
  findall digit_run (assemble d gs) = merged d gs.
Proof.
  induction gs as [|[s e] gs IH]; intros d Hne Hd Hgs; simpl.
  - rewrite <- (app_nil_r d) at 1. rewrite runs_digits; simpl; auto.
  - inversion Hgs as [|g gs' (Hs & He & Hne') Hgs']; subst. simpl in *.
    destruct s as [|c s]; simpl.
    + rewrite <- assemble_app. apply IH; auto.
      * destruct d; [congruence | discriminate].
      * apply Forall_app; auto.
    + rewrite runs_digits; auto.
      * f_equal. change (c :: s ++ assemble e gs)
          with ((c :: s) ++ assemble e gs).
        rewrite runs_separators by assumption. apply IH; auto.
      * simpl. inversion Hs; assumption.
Qed.

Lemma matches_cons_inv a r x :
  matches (a :: r) x ->
  exists u v, x = u ++ v /\
    Forall (fun c => in_class (cls a) c = true) u /\
    lo a <= length u /\ within (length u) (hi a) /\ matches r v.
Proof. intros H. inversion H; subst. eauto 10. Qed.

Lemma matches_nil_inv x : matches [] x -> x = [].
Proof. intros H. inversion H; reflexivity. Qed.

Lemma nondigit_separators u :
  Forall (fun c => in_class NonDigit c = true) u -> separators u.
Proof.
  apply Forall_impl. intros c H. simpl in H.
  apply negb_true_iff in H. exact H.
Qed.

(** A coarse match reads as the spec's grammar says. *)
Lemma pattern_coarse m :
  matches pattern m ->
  exists d16 s1 d2 s2 dy s3 dc,
    m = assemble d16 [(s1, d2); (s2, dy); (s3, dc)] /\
    coarse d16 s1 d2 s2 dy s3 dc.
Proof.
  intros H. unfold pattern in H.
  apply matches_cons_inv in H. destruct H as (d16 & v1 & -> & F1 & L1 & W1 & H).
  apply matches_cons_inv in H. destruct H as (s1 & v2 & -> & F2 & _ & _ & H).
  apply matches_cons_inv in H. destruct H as (d2 & v3 & -> & F3 & L3 & W3 & H).
  apply matches_cons_inv in H. destruct H as (s2 & v4 & -> & F4 & _ & _ & H).
  apply matches_cons_inv in H. destruct H as (dy & v5 & -> & F5 & L5 & W5 & H).
  apply matches_cons_inv in H. destruct H as (s3 & v6 & -> & F6 & _ & _ & H).
  apply matches_cons_inv in H. destruct H as (dc & v7 & -> & F7 & L7 & W7 & H).
  apply matches_nil_inv in H. subst v7. simpl in *.
  exists d16, s1, d2, s2, dy, s3, dc. split.
  - rewrite app_nil_r. reflexivity.
  - unfold coarse, digits.
    repeat split; auto using nondigit_separators; lia.
Qed.

Lemma nonempty_length (s : str) n : n <= length s -> 0 < n -> s <> [].
Proof. destruct s; simpl; [lia | discriminate]. Qed.

Lemma coarse_runs d16 s1 d2 s2 dy s3 dc :
  coarse d16 s1 d2 s2 dy s3 dc ->
  findall digit_run (assemble d16 [(s1, d2); (s2, dy); (s3, dc)]) =
  merged d16 [(s1, d2); (s2, dy); (s3, dc)].
Proof.
  intros (D1 & L1 & S1 & D2 & L2 & S2 & D3 & L3 & S3 & D4 & L4).
  apply runs_assemble; auto.
  - apply nonempty_length with (n := 16); lia.
  - repeat constructor; simpl; auto;
      eapply nonempty_length with (n := 2); lia.
Qed.

End Runs.

(** ** The store *)

Section StoreFacts.

Variable sha : str -> str.
Variable E : environ.

Lemma hash_in_app h t r :
  hash_in h (t ++ r) = hash_in h t || hash_in h r.
Proof. apply existsb_app. Qed.

Lemma hash_in_In h t : hash_in h t = true <-> In h (map card_hash t).
Proof.
  unfold hash_in. rewrite existsb_exists, in_map_iff. split.
  - intros (r & Hr & He). apply str_eqb_eq in He. eauto.
  - intros (r & He & Hr). exists r. split; [assumption|].
    apply str_eqb_eq. assumption.
Qed.

Lemma hash_in_false h t : hash_in h t = false <-> ~ In h (map card_hash t).
Proof.
  rewrite <- hash_in_In. destruct (hash_in h t); split; congruence.
Qed.

Lemma is_card_seen_run c src w :
  is_card_seen sha c src w =
  ((hash_in (sha c) (seen_cards w), sha c), logged (SelectSeen (sha c)) w).
Proof. reflexivity. Qed.

Lemma mark_card_seen_run h src w :
  mark_card_seen E h src w =
  (tt,
   let ts := utcnow E (clock w) in
   if hash_in h (seen_cards w)
   then World (seen_cards w) (last_scraped w) (S (clock w))
              (journal w ++ [InsertSeen h src ts])
   else World (seen_cards w ++ [SeenRow h src ts]) (last_scraped w)
              (S (clock w)) (journal w ++ [InsertSeen h src ts])).
Proof.
  cbv beta iota zeta delta
    [mark_card_seen bind now insert_seen execute logged ret
     seen_cards last_scraped clock journal].
  destruct w as [sc ls ck jn].
  destruct (hash_in h sc); reflexivity.
Qed.

Lemma get_last_msg_id_run cid w :
  get_last_msg_id cid w = (stored_position cid w, logged (SelectLast cid) w).
Proof. reflexivity. Qed.

Lemma update_last_msg_id_run cid pos w :
  update_last_msg_id E cid pos w =
  (tt,
   World (seen_cards w)
         (filter (fun r => negb (channel_id r =? cid)%Z) (last_scraped w)
            ++ [LastRow cid pos (utcnow E (clock w))])
         (S (clock w))
         (journal w ++ [ReplaceLast cid pos (utcnow E (clock w))])).
Proof. reflexivity. Qed.

Lemma find_filter_other cid cid' (t : list last_row) :
  cid' <> cid ->
  find (fun r => channel_id r =? cid')%Z
       (filter (fun r => negb (channel_id r =? cid)%Z) t) =
  find (fun r => channel_id r =? cid')%Z t.
Proof.
  intros Hne. induction t as [|r t IH]; simpl; [reflexivity|].
  destruct (channel_id r =? cid)%Z eqn:H1; simpl.
  - apply Z.eqb_eq in H1.
    destruct (channel_id r =? cid')%Z eqn:H2; [|exact IH].
    apply Z.eqb_eq in H2. congruence.
  - destruct (channel_id r =? cid')%Z; [reflexivity | exact IH].
Qed.

Lemma find_filter_same cid (t : list last_row) :
  find (fun r => channel_id r =? cid)%Z
       (filter (fun r => negb (channel_id r =? cid)%Z) t) = None.
Proof.
  induction t as [|r t IH]; simpl; [reflexivity|].
  destruct (channel_id r =? cid)%Z eqn:H1; simpl; [exact IH|].
  rewrite H1. exact IH.
Qed.

Lemma find_app_none (A : Type) (f : A -> bool) t r :
  find f t = None -> find f (t ++ r) = find f r.
Proof.
  induction t as [|x t IH]; simpl; [reflexivity|].
  destruct (f x); [discriminate | exact IH].
Qed.

Lemma find_app_some (A : Type) (f : A -> bool) t r x :
  find f t = Some x -> find f (t ++ r) = Some x.
Proof.
  induction t as [|y t IH]; simpl; [discriminate|].
  destruct (f y); [trivial | exact IH].
Qed.

(** After the upsert the channel's position is the one written; the
    other channels keep theirs. *)
Lemma stored_after_update cid pos w cid' :
  stored_position cid' (snd (update_last_msg_id E cid pos w)) =
  if (cid' =? cid)%Z then Some pos else stored_position cid' w.
Proof.
  rewrite update_last_msg_id_run. unfold stored_position. simpl.
  destruct (cid' =? cid)%Z eqn:Hc.
  - apply Z.eqb_eq in Hc. subst cid'.
    rewrite find_app_none by apply find_filter_same.
    simpl. rewrite Z.eqb_refl. reflexivity.
  - apply Z.eqb_neq in Hc.
    destruct (find (fun r => channel_id r =? cid')%Z (last_scraped w))
      as [x|] eqn:Hf.
    + erewrite find_app_some; [reflexivity|].
      rewrite find_filter_other by assumption. exact Hf.
    + rewrite find_app_none by (rewrite find_filter_other; assumption).
      simpl. destruct (cid =? cid')%Z eqn:Hc'; [|reflexivity].
      apply Z.eqb_eq in Hc'. congruence.
Qed.

End StoreFacts.

(** ** The message loop *)

Section LoopFacts.

Variable sha : str -> str.
Variable E : environ.
Variable rq : request.

Lemma emits_nil w w' : seen_cards w' = seen_cards w -> emits sha [] w w'.
Proof.
  intros H. exists []. rewrite app_nil_r. simpl.
  repeat split; auto using NoDup_nil. intros h [].
Qed.

Lemma emits_trans l1 l2 w w1 w2 :
  emits sha l1 w w1 -> emits sha l2 w1 w2 -> emits sha (l1 ++ l2) w w2.
Proof.
  intros (r1 & S1 & M1 & N1 & A1) (r2 & S2 & M2 & N2 & A2).
  exists (r1 ++ r2). rewrite S2, S1, <- app_assoc, !map_app, M1, M2.
  repeat split; auto.
  - rewrite <- M1, <- M2. apply NoDup_app; auto.
    intros h H1 H2. specialize (A2 h H2).
    rewrite S1, hash_in_app in A2. apply orb_false_iff in A2.
    destruct A2 as [_ A2]. apply hash_in_false in A2. auto.
  - intros h Hh. rewrite <- M1, <- M2 in Hh. apply in_app_or in Hh.
    destruct Hh as [Hh|Hh]; [auto|].
    specialize (A2 h Hh). rewrite S1, hash_in_app in A2.
    apply orb_false_iff in A2. tauto.
Qed.

Lemma grows_quiet l w w' js :
  seen_cards w' = seen_cards w -> last_scraped w' = last_scraped w ->
  journal w' = journal w ++ js ->
  Forall (fun q => on_checkpoints q = false) js ->
  grows sha rq l w l w'.
Proof.
  intros Hs Hl Hj Hq. exists [], js. rewrite app_nil_r. simpl.
  repeat split; auto using emits_nil; try lia; contradiction.
Qed.

Lemma grows_refl l w : grows sha rq l w l w.
Proof.
  apply grows_quiet with (js := []); auto. rewrite app_nil_r; reflexivity.
Qed.

Lemma grows_trans l w l1 w1 l2 w2 :
  grows sha rq l w l1 w1 -> grows sha rq l1 w1 l2 w2 ->
  grows sha rq l w l2 w2.
Proof.
  intros (n1 & j1 & F1 & C1 & E1 & L1 & J1 & Q1 & B1)
         (n2 & j2 & F2 & C2 & E2 & L2 & J2 & Q2 & B2).
  exists (n1 ++ n2), (j1 ++ j2).
  rewrite F2, F1, C2, C1, L2, L1, J2, J1, <- !app_assoc, length_app.
  repeat split; eauto using emits_trans; try lia.
  - apply Forall_app; auto.
  - intros line H.
    apply in_app_or in H. destruct H as [H|H]; [apply B1 | apply B2]; auto.
Qed.

Lemma grows_newest l w l' w' n :
  grows sha rq l w l' w' ->
  grows sha rq l w (Locals (messages_found l') (count l') n) w'.
Proof. intros (n1 & j1 & H). exists n1, j1. exact H. Qed.

(** One record: nothing happens to the tables, or the record was not in
    [seen_cards], is emitted, and is in [seen_cards] afterwards. *)
Lemma on_record_cases title c mo y cvv l w :
  let r := on_record sha E rq title (c, mo, y, cvv) l w in
  (fst r = l /\ seen_cards (snd r) = seen_cards w /\
   last_scraped (snd r) = last_scraped w /\
   (bin_rejects rq c = true /\ snd r = w \/
    bin_rejects rq c = false /\ hash_in (sha c) (seen_cards w) = true /\
    journal (snd r) = journal w ++ [SelectSeen (sha c)]))
  \/
  (bin_rejects rq c = false /\
   hash_in (sha c) (seen_cards w) = false /\
   fst r = Locals (messages_found l ++ [formatted c mo y cvv])
                  (count l + 1) (newest_msg_id_in_this_run l) /\
   seen_cards (snd r) =
     seen_cards w ++ [SeenRow (sha c) title (utcnow E (clock w))] /\
   last_scraped (snd r) = last_scraped w /\
   journal (snd r) =
     journal w ++ [SelectSeen (sha c);
                   InsertSeen (sha c) title (utcnow E (clock w))]).
Proof.
  unfold on_record. destruct (bin_rejects rq c) eqn:Hb.
  - left. simpl. auto 10.
  - unfold bind. rewrite is_card_seen_run.
    destruct (hash_in (sha c) (seen_cards w)) eqn:Hs; simpl.
    + left. auto 10.
    + right. rewrite mark_card_seen_run. simpl. rewrite Hs. simpl.
      rewrite <- app_assoc. auto 10.
Qed.

Lemma on_record_grows title c mo y cvv l w l' w' :
  digits c ->
  on_record sha E rq title (c, mo, y, cvv) l w = (l', w') ->
  grows sha rq l w l' w'.
Proof.
  intros Hd Hr.
  pose proof (on_record_cases title c mo y cvv l w) as H.
  rewrite Hr in H. simpl in H.
  destruct H as [(-> & Hs & Hl & Hj) | (Hb & Hh & -> & Hs & Hl & Hj)].
  - destruct Hj as [[_ ->] | (_ & _ & Hj)].
    + apply grows_refl.
    + eapply grows_quiet; eauto.
  - exists [formatted c mo y cvv],
      [SelectSeen (sha c); InsertSeen (sha c) title (utcnow E (clock w))].
    simpl. repeat split; auto.
    + exists [SeenRow (sha c) title (utcnow E (clock w))]. simpl.
      unfold hash_of. rewrite primary_formatted by assumption.
      repeat split; auto.
      * constructor; [simpl; tauto | constructor].
      * intros h [<-|[]]. assumption.
    + intros line [<-|[]]. exists c, mo, y, cvv. auto.
Qed.

Lemma runs_are_digits m x : In x (Re.findall digit_run m) -> digits x.
Proof.
  intros H. apply ReFacts.findall_sound in H. destruct H as [H _].
  apply Runs.matches_cons_inv in H.
  destruct H as (u & v & -> & Hu & _ & _ & Hv).
  apply Runs.matches_nil_inv in Hv. subst v. rewrite app_nil_r. exact Hu.
Qed.

Lemma parse_match_digits m c mo y cvv :
  parse_match m = Some (c, mo, y, cvv) -> digits c.
Proof.
  unfold parse_match.
  destruct (Re.findall digit_run m) as [|a [|b [|d [|e [|f t]]]]] eqn:Hr;
    try discriminate.
  intros [= <- _ _ _]. apply (runs_are_digits m). rewrite Hr. left; auto.
Qed.

Lemma on_match_grows title m l w l' w' :
  on_match sha E rq title m l w = (l', w') -> grows sha rq l w l' w'.
Proof.
  unfold on_match. destruct (parse_match m) as [[[[c mo] y] cvv]|] eqn:Hp.
  - apply on_record_grows. eapply parse_match_digits; eauto.
  - intros [= <- <-]. apply grows_refl.
Qed.

Lemma on_matches_grows title ms : forall l w l' w',
  on_matches sha E rq title ms l w = (l', w') -> grows sha rq l w l' w'.
Proof.
  induction ms as [|m ms IH]; intros l w l' w'; simpl.
  - intros [= <- <-]. apply grows_refl.
  - unfold bind. destruct (on_match sha E rq title m l w) as [l1 w1] eqn:H1.
    intros H2. eapply grows_trans; eauto using on_match_grows.
Qed.

Lemma on_matches_newest title ms : forall l w,
  newest_msg_id_in_this_run (fst (on_matches sha E rq title ms l w)) =
  newest_msg_id_in_this_run l.
Proof.
  induction ms as [|m ms IH]; intros l w; simpl; [reflexivity|].
  unfold bind. destruct (on_match sha E rq title m l w) as [l1 w1] eqn:H1.
  rewrite IH. unfold on_match in H1.
  destruct (parse_match m) as [[[[c mo] y] cvv]|].
  - pose proof (on_record_cases title c mo y cvv l w) as H.
    rewrite H1 in H. simpl in H.
    destruct H as [(-> & _) | (_ & _ & -> & _)]; reflexivity.
  - injection H1 as <- _. reflexivity.
Qed.

Lemma track_newest m l :
  newest_msg_id_in_this_run (track m l) =
  opt_max (newest_msg_id_in_this_run l) (msg_id m).
Proof.
  unfold track, opt_max. destruct (newest_msg_id_in_this_run l) as [n|] eqn:Hn.
  - destruct (n <? msg_id m)%Z eqn:Hlt; simpl.
    + apply Z.ltb_lt in Hlt. f_equal. lia.
    + apply Z.ltb_ge in Hlt. rewrite Hn. f_equal. lia.
  - reflexivity.
Qed.

Lemma track_rest m l :
  messages_found (track m l) = messages_found l /\
  count (track m l) = count l.
Proof.
  unfold track. destruct (newest_msg_id_in_this_run l) as [n|];
    [destruct (n <? msg_id m)%Z|]; auto.
Qed.

Lemma grows_track m l w : grows sha rq l w (track m l) w.
Proof.
  destruct (track_rest m l) as [Hf Hc].
  replace (track m l) with
    (Locals (messages_found l) (count l)
            (newest_msg_id_in_this_run (track m l))).
  - apply grows_newest, grows_refl.
  - rewrite <- Hf, <- Hc. destruct (track m l); reflexivity.
Qed.

Lemma on_message_grows title last m l w l' w' :
  on_message sha E rq title last m l w = (l', w') -> grows sha rq l w l' w'.
Proof.
  unfold on_message. intros H.
  apply grows_trans with (l1 := track m l) (w1 := w); [apply grows_track|].
  destruct (already_scraped last m); [injection H as <- <-; apply grows_refl|].
  destruct (text_of m) as [[|c t]|];
    try (injection H as <- <-; apply grows_refl).
  destruct (bank_rejects rq (c :: t));
    [injection H as <- <-; apply grows_refl|].
  eapply on_matches_grows; eauto.
Qed.

Lemma on_message_newest title last m l w :
  newest_msg_id_in_this_run (fst (on_message sha E rq title last m l w)) =
  opt_max (newest_msg_id_in_this_run l) (msg_id m).
Proof.
  unfold on_message. rewrite <- track_newest.
  destruct (already_scraped last m); [reflexivity|].
  destruct (text_of m) as [[|c t]|]; try reflexivity.
  destruct (bank_rejects rq (c :: t)); [reflexivity|].
  apply on_matches_newest.
Qed.

Lemma messages_loop_grows title last f : forall l w l' w',
  messages_loop sha E rq title last f l w = (l', w') ->
  grows sha rq l w l' w'.
Proof.
  induction f as [| |m rest IH]; intros l w l' w'; simpl;
    try (intros [= <- <-]; apply grows_refl).
  destruct (limit rq <=? count l)%Z; [intros [= <- <-]; apply grows_refl|].
  unfold bind.
  destruct (on_message sha E rq title last m l w) as [l1 w1] eqn:H1.
  intros H2. eapply grows_trans; eauto using on_message_grows.
Qed.

(** The loop's [newest_msg_id_in_this_run] is the highest position among
    where it started and the messages it took. *)
Lemma messages_loop_newest title last f : forall l w,
  newest_msg_id_in_this_run
    (fst (messages_loop sha E rq title last f l w)) =
  highest (newest_msg_id_in_this_run l)
          (observed sha E rq title last f l w).
Proof.
  unfold highest.
  induction f as [| |m rest IH]; intros l w; simpl; try reflexivity.
  destruct (limit rq <=? count l)%Z; [reflexivity|].
  unfold bind.
  pose proof (on_message_newest title last m l w) as Hn.
  destruct (on_message sha E rq title last m l w) as [l1 w1].
  simpl in *. rewrite IH, Hn. reflexivity.
Qed.

End LoopFacts.

(** ** One scan *)

Section ScanFacts.

Variable sha : str -> str.
Variable E : environ.
Variable rq : request.

Lemma scrape_unresolved w :
  get_chat E (channel_username rq) = None ->
  scrape_new_messages sha E rq w =
  (([], Some (lit "Invalid Channel"), Some 0%Z), w).
Proof. intros H. unfold scrape_new_messages. rewrite H. reflexivity. Qed.

(** A scan of a resolved source, step by step. *)
Lemma scrape_resolved ch w :
  get_chat E (channel_username rq) = Some ch ->
  let cid := chat_id ch in
  let prior := stored_position cid w in
  let lw := messages_loop sha E rq (chat_title ch) prior
              (search_messages E cid (limit rq * 5))
              (Locals [] 0 prior) (logged (SelectLast cid) w) in
  let newest := newest_msg_id_in_this_run (fst lw) in
  scrape_new_messages sha E rq w =
  ((messages_found (fst lw), chat_title ch,
    if truthy_int newest then newest else prior),
   match newest with
   | Some n =>
       if truthy_int newest && negb (opt_eqb newest prior)
       then snd (update_last_msg_id E cid n (snd lw))
       else snd lw
   | None => snd lw
   end).
Proof.
  intros H. unfold scrape_new_messages. rewrite H.
  unfold bind. rewrite get_last_msg_id_run.
  destruct (messages_loop sha E rq (chat_title ch)
              (stored_position (chat_id ch) w)
              (search_messages E (chat_id ch) (limit rq * 5))
              (Locals [] 0 (stored_position (chat_id ch) w))
              (logged (SelectLast (chat_id ch)) w)) as [l w1].
  simpl. destruct (newest_msg_id_in_this_run l) as [n|]; simpl.
  - match goal with
    | |- context [if ?b then update_last_msg_id _ _ _ else _] => destruct b
    end; reflexivity.
  - reflexivity.
Qed.

Lemma emits_ext lines w w' v v' :
  seen_cards v = seen_cards w -> seen_cards v' = seen_cards w' ->
  emits sha lines w w' -> emits sha lines v v'.
Proof.
  intros Hv Hv' (rows & H). exists rows. rewrite Hv, Hv'. exact H.
Qed.

(** What a scan emits, and what it does to [seen_cards]. *)
Lemma scrape_emits w :
  let out := scrape_new_messages sha E rq w in
  emits sha (lines_of (fst out)) w (snd out) /\
  forall line, In line (lines_of (fst out)) ->
    exists c mo y cvv,
      line = formatted c mo y cvv /\ digits c /\ bin_rejects rq c = false.
Proof.
  destruct (get_chat E (channel_username rq)) as [ch|] eqn:Hch.
  - rewrite (scrape_resolved w Hch). cbv zeta.
    destruct (messages_loop sha E rq (chat_title ch)
                (stored_position (chat_id ch) w)
                (search_messages E (chat_id ch) (limit rq * 5))
                (Locals [] 0 (stored_position (chat_id ch) w))
                (logged (SelectLast (chat_id ch)) w)) as [l w1] eqn:Hl.
    apply messages_loop_grows in Hl.
    destruct Hl as (new & js & Hf & _ & He & _ & _ & _ & Hb).
    simpl in Hf. unfold lines_of. simpl. rewrite Hf. split; [|exact Hb].
    eapply emits_ext; [| |exact He]; [reflexivity|].
    destruct (newest_msg_id_in_this_run l) as [n|]; [|reflexivity].
    destruct (truthy_int (Some n) && _); reflexivity.
  - rewrite (scrape_unresolved w Hch). simpl. split.
    + apply emits_nil. reflexivity.
    + intros line [].
Qed.

Lemma highest_app a ms m :
  highest a (ms ++ [m]) = opt_max (highest a ms) (msg_id m).
Proof. unfold highest. rewrite fold_left_app. reflexivity. Qed.

Lemma highest_cases ms : forall a,
  highest a ms = a \/ exists m, In m ms /\ highest a ms = Some (msg_id m).
Proof.
  unfold highest. induction ms as [|m ms IH]; intros a; simpl; [auto|].
  destruct (IH (opt_max a (msg_id m))) as [H|(m' & Hin & H)].
  - rewrite H. destruct a as [n|]; simpl; [|right; eauto].
    destruct (Z.max_spec n (msg_id m)) as [[_ ->]|[_ ->]]; [right; eauto | auto].
  - right. eauto.
Qed.

Lemma highest_ge ms : forall p,
  exists n, highest (Some p) ms = Some n /\ (p <= n)%Z.
Proof.
  unfold highest. induction ms as [|m ms IH]; intros p; simpl.
  - exists p. split; [reflexivity | lia].
  - destruct (IH (Z.max p (msg_id m))) as (n & -> & Hn).
    exists n. split; [reflexivity | lia].
Qed.

Lemma highest_bound ms : forall a n m,
  highest a ms = Some n -> In m ms -> (msg_id m <= n)%Z.
Proof.
  unfold highest. induction ms as [|x ms IH]; intros a n m H Hin; [destruct Hin|].
  simpl in H. destruct Hin as [->|Hin]; [|eauto].
  destruct a as [p|]; simpl in H.
  - destruct (highest_ge ms (Z.max p (msg_id m))) as (n' & Hn' & Hle).
    unfold highest in Hn'. rewrite Hn' in H. injection H as <-. lia.
  - destruct (highest_ge ms (msg_id m)) as (n' & Hn' & Hle).
    unfold highest in Hn'. rewrite Hn' in H. injection H as <-. lia.
Qed.

Lemma opt_eqb_eq a b : opt_eqb a b = true <-> a = b.
Proof.
  destruct a, b; simpl; try (split; congruence).
  rewrite Z.eqb_eq. split; congruence.
Qed.

Lemma same_last_stored w w' cid :
  last_scraped w' = last_scraped w ->
  stored_position cid w' = stored_position cid w.
Proof. unfold stored_position. intros ->. reflexivity. Qed.

(** The checkpoint after a scan of a resolved source whose observed
    positions are not zero: the highest of the prior checkpoint and the
    observed positions, which is also the position returned; and the
    shape of the journal, with its one [INSERT OR REPLACE] exactly when
    that highest position is not the prior one. *)
Lemma scrape_checkpoint ch w :
  get_chat E (channel_username rq) = Some ch ->
  Forall (fun m => msg_id m <> 0%Z) (scan_observed sha E rq ch w) ->
  let cid := chat_id ch in
  let prior := stored_position cid w in
  let top := highest prior (scan_observed sha E rq ch w) in
  let out := scrape_new_messages sha E rq w in
  stored_position cid (snd out) = top /\
  position_of (fst out) = top /\
  exists js tail,
    journal (snd out) = journal w ++ SelectLast cid :: js ++ tail /\
    Forall (fun q => on_checkpoints q = false) js /\
    (top = prior -> tail = [] /\ last_scraped (snd out) = last_scraped w) /\
    (top <> prior ->
     exists n ts, top = Some n /\ tail = [ReplaceLast cid n ts] /\
       (prior = None \/ exists p, prior = Some p /\ (p < n)%Z)).
Proof.
  intros Hch Hnz. cbv zeta. rewrite (scrape_resolved w Hch). cbv zeta.
  pose proof (messages_loop_newest sha E rq (chat_title ch)
                (stored_position (chat_id ch) w)
                (search_messages E (chat_id ch) (limit rq * 5))
                (Locals [] 0 (stored_position (chat_id ch) w))
                (logged (SelectLast (chat_id ch)) w)) as Hnew.
  fold (scan_observed sha E rq ch w) in Hnew. simpl in Hnew.
  destruct (messages_loop sha E rq (chat_title ch)
              (stored_position (chat_id ch) w)
              (search_messages E (chat_id ch) (limit rq * 5))
              (Locals [] 0 (stored_position (chat_id ch) w))
              (logged (SelectLast (chat_id ch)) w)) as [l w1] eqn:Hl.
  apply messages_loop_grows in Hl.
  destruct Hl as (new & js & _ & _ & _ & Hls & Hj & Hq & _).
  simpl in Hls, Hj, Hnew |- *. unfold position_of. simpl.
  set (prior := stored_position (chat_id ch) w) in *.
  set (obs := scan_observed sha E rq ch w) in *.
  rewrite Hnew.
  assert (Hw1 : stored_position (chat_id ch) w1 = prior)
    by (apply same_last_stored; exact Hls).
  destruct (highest prior obs) as [n|] eqn:Htop.
  - destruct (opt_eqb (Some n) prior) eqn:Heq.
    + apply opt_eqb_eq in Heq. rewrite andb_false_r.
      rewrite Hw1, <- Heq. split; [reflexivity|].
      split; [destruct (truthy_int (Some n)); reflexivity|].
      exists js, []. rewrite app_nil_r, Hj, <- app_assoc.
      repeat split; auto. congruence.
    + assert (Hne : Some n <> prior)
        by (intros Hc; apply opt_eqb_eq in Hc; congruence).
      assert (Hn0 : n <> 0%Z).
      { destruct (highest_cases obs prior) as [Hc|(m & Hin & Hc)];
          rewrite Htop in Hc; [congruence|].
        injection Hc as ->. rewrite Forall_forall in Hnz. auto. }
      assert (Ht : truthy_int (Some n) = true)
        by (simpl; apply negb_true_iff, Z.eqb_neq; exact Hn0).
      rewrite Ht. simpl andb. cbv iota.
      pose proof (stored_after_update E (chat_id ch) n w1 (chat_id ch))
        as Hst.
      rewrite Z.eqb_refl in Hst.
      split; [exact Hst|]. split; [reflexivity|]. simpl.
      exists js, [ReplaceLast (chat_id ch) n (utcnow E (clock w1))].
      rewrite Hj, <- !app_assoc. repeat split; auto; try congruence.
      intros _. exists n, (utcnow E (clock w1)). repeat split; auto.
      destruct prior as [p|] eqn:Hp; [right | left; reflexivity].
      exists p. split; [reflexivity|].
      destruct (highest_ge obs p) as (n' & Hn' & Hle).
      rewrite Htop in Hn'. injection Hn' as <-.
      assert (p <> n) by congruence. lia.
  - assert (Hp : prior = None).
    { destruct (highest_cases obs prior) as [Hc|(m & _ & Hc)];
        rewrite Htop in Hc; congruence. }
    rewrite Hw1, Hp. simpl. repeat split.
    exists js, []. rewrite app_nil_r, Hj, <- app_assoc.
    repeat split; auto. congruence.
Qed.

End ScanFacts.

(** ** Scans one after the other *)

Section RunFacts.

Variable sha : str -> str.

Lemma run_cons c cs w :
  run sha (c :: cs) w =
  let out := scrape_new_messages sha (call_env c) (call_rq c) w in
  let outs := run sha cs (snd out) in
  (fst out :: fst outs, snd outs).
Proof.
  simpl. unfold bind, ret.
  destruct (scrape_new_messages sha (call_env c) (call_rq c) w) as [r w1].
  simpl. destruct (run sha cs w1) as [rs w2]. reflexivity.
Qed.

Lemma run_app cs1 : forall cs2 w,
  run sha (cs1 ++ cs2) w =
  let o1 := run sha cs1 w in
  let o2 := run sha cs2 (snd o1) in
  (fst o1 ++ fst o2, snd o2).
Proof.
  induction cs1 as [|c cs1 IH]; intros cs2 w.
  - simpl. destruct (run sha cs2 w); reflexivity.
  - rewrite <- app_comm_cons, !run_cons. cbv zeta. rewrite IH. reflexivity.
Qed.

Lemma run_emits cs : forall w,
  emits sha (emitted (fst (run sha cs w))) w (snd (run sha cs w)).
Proof.
  induction cs as [|c cs IH]; intros w.
  - simpl. apply emits_nil. reflexivity.
  - rewrite run_cons. cbv zeta. simpl.
    eapply emits_trans; [|apply IH].
    apply (scrape_emits sha (call_env c) (call_rq c) w).
Qed.

Lemma emits_facts lines w w' :
  emits sha lines w w' ->
  NoDup (map (hash_of sha) lines) /\
  (forall line, In line lines ->
     hash_in (hash_of sha line) (seen_cards w) = false /\
     hash_in (hash_of sha line) (seen_cards w') = true) /\
  (forall h, hash_in h (seen_cards w) = true ->
     hash_in h (seen_cards w') = true).
Proof.
  intros (rows & Hs & Hm & Hn & Ha). rewrite <- Hm. split; [exact Hn|].
  split.
  - intros line Hin.
    assert (Hh : In (hash_of sha line) (map card_hash rows))
      by (rewrite Hm; apply in_map; exact Hin).
    split; [auto|].
    rewrite Hs, hash_in_app. apply orb_true_iff. right.
    apply hash_in_In. exact Hh.
  - intros h Hh. rewrite Hs, hash_in_app, Hh. reflexivity.
Qed.

Lemma NoDup_map_inv_fun (A B : Type) (f : A -> B) (l : list A) :
  NoDup (map f l) -> NoDup l.
Proof.
  induction l as [|x l IH]; simpl; intros H; [constructor|].
  inversion H; subst. constructor; [|auto].
  intros Hin. apply (in_map f) in Hin. contradiction.
Qed.

(** A scan never lowers a stored position, whatever it scans. *)
Lemma scrape_monotone E rq w cid p :
  stored_position cid w = Some p ->
  exists p', stored_position cid (snd (scrape_new_messages sha E rq w))
             = Some p' /\ (p <= p')%Z.
Proof.
  intros Hp.
  destruct (get_chat E (channel_username rq)) as [ch|] eqn:Hch.
  2:{ rewrite (scrape_unresolved sha E rq w Hch). simpl.
      exists p. split; [assumption | lia]. }
  rewrite (scrape_resolved sha E rq w Hch). cbv zeta.
  pose proof (messages_loop_newest sha E rq (chat_title ch)
                (stored_position (chat_id ch) w)
                (search_messages E (chat_id ch) (limit rq * 5))
                (Locals [] 0 (stored_position (chat_id ch) w))
                (logged (SelectLast (chat_id ch)) w)) as Hnew.
  destruct (messages_loop sha E rq (chat_title ch)
              (stored_position (chat_id ch) w)
              (search_messages E (chat_id ch) (limit rq * 5))
              (Locals [] 0 (stored_position (chat_id ch) w))
              (logged (SelectLast (chat_id ch)) w)) as [l w1] eqn:Hl.
  apply messages_loop_grows in Hl.
  destruct Hl as (new & js & _ & _ & _ & Hls & _).
  simpl in Hls, Hnew. cbn [fst snd].
  assert (Hw1 : stored_position cid w1 = Some p)
    by (rewrite (same_last_stored w w1 cid Hls); exact Hp).
  destruct (newest_msg_id_in_this_run l) as [n|];
    [|exists p; split; [assumption | lia]].
  match goal with |- context [if ?b then _ else _] => destruct b end;
    [|exists p; split; [assumption | lia]].
  rewrite stored_after_update.
  destruct (cid =? chat_id ch)%Z eqn:Hc;
    [|exists p; split; [assumption | lia]].
  apply Z.eqb_eq in Hc. subst cid. rewrite Hp in Hnew.
  destruct (highest_ge
              (observed sha E rq (chat_title ch) (Some p)
                 (search_messages E (chat_id ch) (limit rq * 5))
                 (Locals [] 0 (Some p)) (logged (SelectLast (chat_id ch)) w))
              p) as (n' & Hn' & Hle).
  rewrite Hn' in Hnew. injection Hnew as ->.
  exists n'. split; [reflexivity | exact Hle].
Qed.

Lemma run_monotone cs : forall w cid p,
  stored_position cid w = Some p ->
  exists p', stored_position cid (snd (run sha cs w)) = Some p' /\
             (p <= p')%Z.
Proof.
  induction cs as [|c cs IH]; intros w cid p Hp.
  - exists p. split; [assumption | lia].
  - rewrite run_cons. cbv zeta. simpl.
    destruct (scrape_monotone (call_env c) (call_rq c) w cid Hp)
      as (p1 & H1 & Hle1).
    destruct (IH _ _ _ H1) as (p2 & H2 & Hle2).
    exists p2. split; [assumption | lia].
Qed.

(** The scan writes no zero position. *)
Lemma scrape_positions_nonzero E rq w :
  positions_nonzero w ->
  positions_nonzero (snd (scrape_new_messages sha E rq w)).
Proof.
  unfold positions_nonzero. intros Hw.
  destruct (get_chat E (channel_username rq)) as [ch|] eqn:Hch.
  2:{ rewrite (scrape_unresolved sha E rq w Hch). exact Hw. }
  rewrite (scrape_resolved sha E rq w Hch). cbv zeta.
  destruct (messages_loop sha E rq (chat_title ch)
              (stored_position (chat_id ch) w)
              (search_messages E (chat_id ch) (limit rq * 5))
              (Locals [] 0 (stored_position (chat_id ch) w))
              (logged (SelectLast (chat_id ch)) w)) as [l w1] eqn:Hl.
  apply messages_loop_grows in Hl.
  destruct Hl as (new & js & _ & _ & _ & Hls & _).
  simpl in Hls. cbn [fst snd].
  destruct (newest_msg_id_in_this_run l) as [n|]; [|rewrite Hls; exact Hw].
  destruct (truthy_int (Some n)) eqn:Ht; cbn [andb];
    [|rewrite Hls; exact Hw].
  destruct (negb (opt_eqb (Some n) (stored_position (chat_id ch) w)));
    [|rewrite Hls; exact Hw].
  rewrite update_last_msg_id_run. simpl. rewrite Hls.
  apply Forall_app. split.
  - rewrite Forall_forall in *. intros r Hr.
    apply filter_In in Hr. apply Hw, Hr.
  - constructor; [|constructor]. simpl.
    simpl in Ht. apply negb_true_iff, Z.eqb_neq in Ht. exact Ht.
Qed.

Lemma run_positions_nonzero cs : forall w,
  positions_nonzero w -> positions_nonzero (snd (run sha cs w)).
Proof.
  induction cs as [|c cs IH]; intros w Hw; [exact Hw|].
  rewrite run_cons. cbv zeta. simpl.
  apply IH, scrape_positions_nonzero, Hw.
Qed.

Lemma stored_nonzero w cid p :
  positions_nonzero w -> stored_position cid w = Some p -> p <> 0%Z.
Proof.
  unfold positions_nonzero, stored_position. intros Hw Hp.
  destruct (find (fun r => channel_id r =? cid)%Z (last_scraped w))
    as [r|] eqn:Hf; [|discriminate].
  injection Hp as <-. apply find_some in Hf.
  rewrite Forall_forall in Hw. apply Hw, Hf.
Qed.

End RunFacts.

(** ** Loops that do nothing, and loops that end in an error *)

Section QuietFacts.

Variable sha : str -> str.
Variable E : environ.
Variable rq : request.

(** With the limit reached the loop stops at once, whatever the feed. *)
Lemma messages_loop_limit title last f l w :
  (limit rq <= count l)%Z ->
  messages_loop sha E rq title last f l w = (l, w) /\
  observed sha E rq title last f l w = [].
Proof.
  intros H. apply Z.leb_le in H.
  destruct f; simpl; rewrite ?H; auto.
Qed.

(** Messages at or below a stored, non-zero position are skipped. *)
Lemma on_message_skipped title p m l w :
  p <> 0%Z -> (msg_id m <= p)%Z ->
  newest_msg_id_in_this_run l = Some p ->
  on_message sha E rq title (Some p) m l w = (l, w).
Proof.
  intros Hp Hm Hn. unfold on_message, track, already_scraped. rewrite Hn.
  replace (p <? msg_id m)%Z with false by (symmetry; apply Z.ltb_ge; lia).
  replace (p =? 0)%Z with false by (symmetry; apply Z.eqb_neq; lia).
  replace (msg_id m <=? p)%Z with true by (symmetry; apply Z.leb_le; lia).
  reflexivity.
Qed.

Lemma messages_loop_skipped title p f : forall l w,
  p <> 0%Z ->
  Forall (fun m => (msg_id m <= p)%Z) (delivered f) ->
  newest_msg_id_in_this_run l = Some p ->
  messages_loop sha E rq title (Some p) f l w = (l, w).
Proof.
  induction f as [| |m rest IH]; intros l w Hp Hf Hn; simpl; auto.
  destruct (limit rq <=? count l)%Z; [reflexivity|].
  simpl in Hf. inversion Hf; subst.
  unfold bind. rewrite on_message_skipped by assumption. auto.
Qed.

(** An error of the iterator ends the loop as its exhaustion does. *)
Lemma messages_loop_raise title last pre : forall l w,
  messages_loop sha E rq title last (feed_of pre Raise) l w =
  messages_loop sha E rq title last (feed_of pre Done) l w /\
  observed sha E rq title last (feed_of pre Raise) l w =
  observed sha E rq title last (feed_of pre Done) l w.
Proof.
  induction pre as [|m pre IH]; intros l w; simpl; [auto|].
  destruct (limit rq <=? count l)%Z; [auto|].
  unfold bind. destruct (on_message sha E rq title last m l w) as [l1 w1].
  destruct (IH l1 w1) as [-> ->]. auto.
Qed.

Lemma delivered_feed_of pre tail :
  delivered (feed_of pre tail) = pre ++ delivered tail.
Proof. induction pre as [|m pre IH]; simpl; [|rewrite IH]; reflexivity. Qed.

(** The observed messages are the first messages delivered. *)
Lemma observed_prefix title last f : forall l w,
  exists rest, delivered f = observed sha E rq title last f l w ++ rest.
Proof.
  induction f as [| |m f IH]; intros l w; simpl; try (exists []; reflexivity).
  destruct (limit rq <=? count l)%Z; [eexists; reflexivity|].
  destruct (on_message sha E rq title last m l w) as [l1 w1].
  destruct (IH l1 w1) as [rest Hr]. exists rest. simpl. rewrite <- Hr.
  reflexivity.
Qed.

(** If the loop ends below the limit it has taken every message
    delivered. *)
Lemma observed_all title last f : forall l w,
  (count (fst (messages_loop sha E rq title last f l w)) < limit rq)%Z ->
  observed sha E rq title last f l w = delivered f.
Proof.
  induction f as [| |m f IH]; intros l w; simpl; try reflexivity.
  destruct (limit rq <=? count l)%Z eqn:Hlim.
  - simpl. apply Z.leb_le in Hlim. lia.
  - unfold bind.
    destruct (on_message sha E rq title last m l w) as [l1 w1].
    intros H. rewrite IH by exact H. reflexivity.
Qed.

(** The statements of the scan keep the primary keys unique. *)
Lemma scrape_keys_unique w :
  keys_unique w -> keys_unique (snd (scrape_new_messages sha E rq w)).
Proof.
  intros [Hs Hl].
  destruct (scrape_emits sha E rq w) as [(rows & Hrows & _ & Hn & Ha) _].
  split.
  - rewrite Hrows, map_app. apply NoDup_app; auto.
    intros h H1 H2. specialize (Ha h H2).
    apply hash_in_false in Ha. contradiction.
  - destruct (get_chat E (channel_username rq)) as [ch|] eqn:Hch.
    2:{ rewrite (scrape_unresolved sha E rq w Hch). exact Hl. }
    rewrite (scrape_resolved sha E rq w Hch). cbv zeta.
    destruct (messages_loop sha E rq (chat_title ch)
                (stored_position (chat_id ch) w)
                (search_messages E (chat_id ch) (limit rq * 5))
                (Locals [] 0 (stored_position (chat_id ch) w))
                (logged (SelectLast (chat_id ch)) w)) as [l w1] eqn:Hloop.
    apply messages_loop_grows in Hloop.
    destruct Hloop as (new & js & _ & _ & _ & Hls & _).
    simpl in Hls. cbn [fst snd].
    destruct (newest_msg_id_in_this_run l) as [n|]; [|rewrite Hls; exact Hl].
    match goal with |- context [if ?b then _ else _] => destruct b end;
      [|rewrite Hls; exact Hl].
    rewrite update_last_msg_id_run. simpl. rewrite Hls, map_app.
    apply NoDup_app.
    + clear - Hl. induction (last_scraped w) as [|r t IH]; simpl;
        [constructor|].
      inversion Hl; subst.
      destruct (negb (channel_id r =? chat_id ch)%Z); simpl; auto.
      constructor; auto.
      intros Hin. apply in_map_iff in Hin. destruct Hin as (x & Hx & Hin).
      apply filter_In in Hin. destruct Hin as [Hin _].
      apply H1. rewrite <- Hx. apply in_map. exact Hin.
    + simpl. constructor; [tauto | constructor].
    + intros c Hin [<-|[]]. apply in_map_iff in Hin.
      destruct Hin as (x & Hx & Hin). apply filter_In in Hin.
      destruct Hin as [_ Hin]. rewrite Hx, Z.eqb_refl in Hin. discriminate.
Qed.

End QuietFacts.

Lemma run_keys_unique sha cs : forall w,
  keys_unique w -> keys_unique (snd (run sha cs w)).
Proof.
  induction cs as [|c cs IH]; intros w Hw; [exact Hw|].
  rewrite run_cons. cbv zeta. simpl. apply IH, scrape_keys_unique, Hw.
Qed.

Lemma entries_unique h w :
  NoDup (hashes w) -> hash_in h (seen_cards w) = true -> entries h w = 1.
Proof.
  unfold hashes, entries, hash_in.
  induction (seen_cards w) as [|r t IH]; simpl; [discriminate|].
  intros Hn Hh. inversion Hn as [|x l Hnot Hn']; subst.
  destruct (str_eqb (card_hash r) h) eqn:He; simpl.
  - f_equal. apply str_eqb_eq in He. subst h.
    clear - Hnot. induction t as [|x t IH]; simpl; [reflexivity|].
    destruct (str_eqb (card_hash x) (card_hash r)) eqn:Hx.
    + apply str_eqb_eq in Hx. exfalso. apply Hnot. left. exact Hx.
    + apply IH. intros Hin. apply Hnot. right. exact Hin.
  - simpl in Hh. apply IH; assumption.
Qed.

Lemma run_formatted sha cs : forall w line,
  In line (emitted (fst (run sha cs w))) ->
  exists c mo y cvv,
    line = formatted c mo y cvv /\ digits c /\ primary line = c.
Proof.
  induction cs as [|c cs IH]; intros w line; [intros []|].
  rewrite run_cons. cbv zeta. simpl. intros H. apply in_app_or in H.
  destruct H as [H|H]; [|eauto].
  apply (scrape_emits sha (call_env c) (call_rq c) w) in H.
  destruct H as (k & mo & y & cvv & -> & Hd & _).
  exists k, mo, y, cvv. auto using primary_formatted.
Qed.

Lemma scan_observed_prefix sha E rq ch w :
  exists rest,
    delivered (search_messages E (chat_id ch) (limit rq * 5)) =
    scan_observed sha E rq ch w ++ rest.
Proof. apply observed_prefix. Qed.

Lemma Forall_prefix (A : Type) (P : A -> Prop) (l l1 l2 : list A) :
  l = l1 ++ l2 -> Forall P l -> Forall P l1.
Proof. intros -> H. apply Forall_app in H. tauto. Qed.

(** A scan that emits fewer lines than its limit has observed every
    message delivered. *)
Lemma scan_observed_all sha E rq ch w :
  get_chat E (channel_username rq) = Some ch ->
  (Z.of_nat (length (lines_of (fst (scrape_new_messages sha E rq w))))
   < limit rq)%Z ->
  scan_observed sha E rq ch w =
  delivered (search_messages E (chat_id ch) (limit rq * 5)).
Proof.
  intros Hch. rewrite (scrape_resolved sha E rq w Hch). cbv zeta.
  unfold lines_of. cbn [fst]. intros Hlt. apply observed_all.
  destruct (messages_loop sha E rq (chat_title ch)
              (stored_position (chat_id ch) w)
              (search_messages E (chat_id ch) (limit rq * 5))
              (Locals [] 0 (stored_position (chat_id ch) w))
              (logged (SelectLast (chat_id ch)) w)) as [l w1] eqn:Hl.
  apply messages_loop_grows in Hl.
  destruct Hl as (new & js & Hf & Hc & _). simpl in *.
  rewrite Hc. rewrite Hf in Hlt. lia.
Qed.

(* ================================================================= *)
(** * The claims *)

(** C1. At-most-once emission. A record is appended to the result only
    when the digest of its primary identifier is not in [seen_cards] at
    the check, and the digest is in [seen_cards] as soon as the record is
    appended. Hence, over any sequence of scans against one database, on
    any sources and with any filters, the digests of the emitted records
    are pairwise different; none of them was in the database the sequence
    started from, and all of them are in the database it ends with. *)
Theorem at_most_once_emission (sha : str -> str) :
  (forall E rq title c mo y cvv l w,
     let r := on_record sha E rq title (c, mo, y, cvv) l w in
     messages_found (fst r) = messages_found l \/
     (messages_found (fst r) = messages_found l ++ [formatted c mo y cvv] /\
      hash_in (sha c) (seen_cards w) = false /\
      hash_in (sha c) (seen_cards (snd r)) = true)) /\
  (forall cs w,
     let out := run sha cs w in
     NoDup (map (hash_of sha) (emitted (fst out))) /\
     forall line, In line (emitted (fst out)) ->
       (exists c mo y cvv,
          line = formatted c mo y cvv /\ hash_of sha line = sha c) /\
       hash_in (hash_of sha line) (seen_cards w) = false /\
       hash_in (hash_of sha line) (seen_cards (snd out)) = true).
Proof.
  split.
  - intros E rq title c mo y cvv l w r.
    destruct (on_record_cases sha E rq title c mo y cvv l w)
      as [(H & _) | (_ & Hh & Hf & Hs & _)]; fold r in H || fold r in Hf, Hs.
    + left. rewrite H. reflexivity.
    + right. rewrite Hf, Hs, hash_in_app. simpl.
      rewrite str_eqb_refl, orb_true_r. auto.
  - intros cs w out.
    destruct (emits_facts (run_emits sha cs w)) as (Hn & Hl & _).
    split; [exact Hn|]. intros line Hin. split; [|apply Hl, Hin].
    destruct (run_formatted sha cs w line Hin) as (c & mo & y & cvv & H & _ & Hp).
    exists c, mo, y, cvv. unfold hash_of. rewrite Hp. auto.
Qed.

Lemma at_most_once_emission_witness :
  let cs := [Call (sample_env (Yield msg7 Done)) sample_rq;
             Call (sample_env (Yield msg9 (Yield msg7 Done))) sample_rq] in
  emitted (fst (run sample_sha cs empty_db)) =
    [lit "4111111111111111|12|25|123"; lit "5500000000000004|03|27|1234"] /\
  NoDup (map (hash_of sample_sha) (emitted (fst (run sample_sha cs empty_db)))).
Proof.
  intros cs. split; [vm_compute; reflexivity|].
  exact (proj1 (proj2 (at_most_once_emission sample_sha) cs empty_db)).
Defined.

(** C3. Deduplication does not look at the source. The identity
    [is_card_seen] checks is the digest of the primary identifier as
    extracted, and neither it nor the answer depends on the source label.
    Once a record with primary identifier [c] has passed the BIN filter it
    is in [seen_cards], it stays there through any later scans, and any
    later record with the same [c], whatever its other fields and whatever
    source it is scanned from, is not emitted and changes no table. So the
    primary identifiers of all lines emitted by a sequence of scans are
    pairwise different. *)
Theorem source_independent_dedup (sha : str -> str) :
  (forall c src1 src2 w,
     is_card_seen sha c src1 w = is_card_seen sha c src2 w /\
     is_card_seen sha c src1 w =
       ((hash_in (sha c) (seen_cards w), sha c),
        logged (SelectSeen (sha c)) w)) /\
  (forall E rq title c mo y cvv l w,
     bin_rejects rq c = false ->
     hash_in (sha c)
       (seen_cards (snd (on_record sha E rq title (c, mo, y, cvv) l w)))
     = true) /\
  (forall cs w h,
     hash_in h (seen_cards w) = true ->
     hash_in h (seen_cards (snd (run sha cs w))) = true) /\
  (forall E rq title c mo y cvv l w,
     hash_in (sha c) (seen_cards w) = true ->
     let r := on_record sha E rq title (c, mo, y, cvv) l w in
     fst r = l /\ same_tables w (snd r)) /\
  (forall cs w,
     NoDup (map primary (emitted (fst (run sha cs w)))) /\
     forall line, In line (emitted (fst (run sha cs w))) ->
       exists c mo y cvv, line = formatted c mo y cvv /\ primary line = c).
Proof.
  repeat split.
  - intros E rq title c mo y cvv l w Hb.
    destruct (on_record_cases sha E rq title c mo y cvv l w)
      as [(_ & Hs & _ & [[Hb' _]|(_ & Hh & _)]) | (_ & _ & _ & Hs & _)].
    + congruence.
    + rewrite Hs. exact Hh.
    + rewrite Hs, hash_in_app. simpl. rewrite str_eqb_refl, orb_true_r.
      reflexivity.
  - intros cs w h. apply (emits_facts (run_emits sha cs w)).
  - destruct (on_record_cases sha E rq title c mo y cvv l w)
      as [(Hf & _) | (_ & Hh & _)]; [exact Hf | congruence].
  - destruct (on_record_cases sha E rq title c mo y cvv l w)
      as [(_ & Hs & _) | (_ & Hh & _)]; [exact Hs | congruence].
  - destruct (on_record_cases sha E rq title c mo y cvv l w)
      as [(_ & _ & Hl & _) | (_ & Hh & _)]; [exact Hl | congruence].
  - destruct (emits_facts (run_emits sha cs w)) as (Hn & _).
    unfold hash_of in Hn. rewrite <- (map_map primary sha) in Hn.
    apply NoDup_map_inv_fun in Hn. exact Hn.
  - intros line Hin.
    destruct (run_formatted sha cs w line Hin) as (c & mo & y & cvv & H & _ & Hp).
    eauto 10.
Qed.

Lemma source_independent_dedup_witness :
  let other := Environ (fun _ => Some (Chat 200 (Some (lit "other"))))
                       (fun _ _ => Yield msg9 Done) (fun n => Z.of_nat n) in
  let w := snd (scrape_new_messages sample_sha
                  (sample_env (Yield msg7 Done)) sample_rq empty_db) in
  hash_in (sample_sha (lit "4111111111111111")) (seen_cards w) = true /\
  fst (on_record sample_sha other sample_rq (Some (lit "other"))
         (lit "4111111111111111", lit "01", lit "30", lit "999")
         (Locals [] 0 None) w) = Locals [] 0 None.
Proof.
  intros other w.
  assert (H : hash_in (sample_sha (lit "4111111111111111")) (seen_cards w)
              = true) by (vm_compute; reflexivity).
  split; [exact H|].
  exact (proj1 (proj1 (proj2 (proj2 (proj2
           (source_independent_dedup sample_sha))))
         other sample_rq (Some (lit "other")) (lit "4111111111111111")
         (lit "01") (lit "30") (lit "999") (Locals [] 0 None) w H)).
Defined.

(** C5. With a prefix filter [sn], every line a scan emits is a record
    whose primary identifier starts with the first 6 characters of [sn],
    and a candidate whose primary identifier does not start with them is
    dropped before the dedup check: it changes neither the result nor the
    database. *)
Theorem bin_filter_correct (sha : str -> str) E rq sn w :
  start_number rq = Some sn ->
  (forall line,
     In line (lines_of (fst (scrape_new_messages sha E rq w))) ->
     exists c mo y cvv,
       line = formatted c mo y cvv /\ primary line = c /\
       startswith c (firstn 6 sn) = true) /\
  (forall title c mo y cvv l w0,
     startswith c (firstn 6 sn) = false ->
     on_record sha E rq title (c, mo, y, cvv) l w0 = (l, w0)).
Proof.
  intros Hsn. split.
  - intros line Hin.
    apply (scrape_emits sha E rq w) in Hin.
    destruct Hin as (c & mo & y & cvv & -> & Hd & Hb).
    exists c, mo, y, cvv. split; [reflexivity|].
    split; [apply primary_formatted; exact Hd|].
    unfold bin_rejects in Hb. rewrite Hsn in Hb.
    destruct sn as [|a sn]; [reflexivity|].
    apply negb_false_iff in Hb. exact Hb.
  - intros title c mo y cvv l w0 Hs. unfold on_record, bin_rejects.
    rewrite Hsn. destruct sn as [|a sn]; [discriminate Hs|].
    rewrite Hs. reflexivity.
Qed.

Lemma bin_filter_correct_witness :
  let rq := Request (lit "@chan") 10 (Some (lit "5500001234")) None in
  let E := sample_env (Yield msg9 (Yield msg7 Done)) in
  start_number rq = Some (lit "5500001234") /\
  lines_of (fst (scrape_new_messages sample_sha E rq empty_db)) =
    [lit "5500000000000004|03|27|1234"] /\
  forall line,
    In line (lines_of (fst (scrape_new_messages sample_sha E rq empty_db))) ->
    exists c mo y cvv,
      line = formatted c mo y cvv /\ primary line = c /\
      startswith c (firstn 6 (lit "5500001234")) = true.
Proof.
  intros rq E. split; [reflexivity|]. split; [vm_compute; reflexivity|].
  exact (proj1 (bin_filter_correct sample_sha E rq empty_db eq_refl)).
Defined.

(** C2. Checkpoint finalization. For a scan of a resolved source whose
    feed delivers no position 0 (Telegram numbers messages from 1, and the
    scan tests positions for truth), the stored checkpoint afterwards is
    the highest of the prior checkpoint and the positions the scan observed
    (the messages it took past its limit test: the first ones delivered,
    and all of them when fewer records were emitted than the limit). The
    scan reads the checkpoint once; it writes it once, last, when that
    highest position is above the prior one or there was no prior one, and
    not at all otherwise. Through any further scans, of any sources, a
    stored position never decreases. *)
Theorem checkpoint_finalization (sha : str -> str) :
  (forall E rq ch w,
     get_chat E (channel_username rq) = Some ch ->
     let cid := chat_id ch in
     let feed := search_messages E cid (limit rq * 5) in
     Forall (fun m => msg_id m <> 0%Z) (delivered feed) ->
     let prior := stored_position cid w in
     let seen := scan_observed sha E rq ch w in
     let top := highest prior seen in
     let out := scrape_new_messages sha E rq w in
     stored_position cid (snd out) = top /\
     (exists rest, delivered feed = seen ++ rest) /\
     ((Z.of_nat (length (lines_of (fst out))) < limit rq)%Z ->
      seen = delivered feed) /\
     exists js tail,
       journal (snd out) = journal w ++ SelectLast cid :: js ++ tail /\
       Forall (fun q => on_checkpoints q = false) js /\
       (top = prior ->
        tail = [] /\ last_scraped (snd out) = last_scraped w) /\
       (top <> prior ->
        exists n ts, top = Some n /\ tail = [ReplaceLast cid n ts] /\
          (prior = None \/ exists p, prior = Some p /\ (p < n)%Z))) /\
  (forall cs1 cs2 w cid p,
     stored_position cid (snd (run sha cs1 w)) = Some p ->
     exists p',
       stored_position cid (snd (run sha (cs1 ++ cs2) w)) = Some p' /\
       (p <= p')%Z).
Proof.
  split.
  - intros E rq ch w Hch cid feed Hnz prior seen top out.
    destruct (scan_observed_prefix sha E rq ch w) as [rest Hrest].
    assert (Hnz' : Forall (fun m => msg_id m <> 0%Z) seen)
      by (eapply Forall_prefix; eauto).
    destruct (scrape_checkpoint sha E rq w Hch Hnz') as (Hs & _ & Hj).
    split; [exact Hs|]. split; [exists rest; exact Hrest|].
    split; [apply scan_observed_all; exact Hch | exact Hj].
  - intros cs1 cs2 w cid p Hp. rewrite run_app. cbv zeta. simpl.
    apply run_monotone. exact Hp.
Qed.

Lemma checkpoint_finalization_witness :
  let E := sample_env (Yield msg9 (Yield msg7 Done)) in
  get_chat E (channel_username sample_rq) = Some sample_chat /\
  Forall (fun m => msg_id m <> 0%Z)
         (delivered (search_messages E 100 (limit sample_rq * 5))) /\
  stored_position 100 (snd (scrape_new_messages sample_sha E sample_rq empty_db))
  = Some 9%Z.
Proof.
  intros E.
  assert (Hnz : Forall (fun m => msg_id m <> 0%Z)
                  (delivered (search_messages E 100 (limit sample_rq * 5))))
    by (repeat constructor; discriminate).
  split; [reflexivity|]. split; [exact Hnz|].
  exact (proj1 (proj1 (checkpoint_finalization sample_sha)
                  E sample_rq sample_chat empty_db eq_refl Hnz)).
Defined.

(** C6. Partial progress on a fetch failure. When the iterator raises
    after delivering [pre], the scan returns what a scan of a source that
    delivers exactly [pre] and then ends returns, and leaves the database
    as that scan does: the records collected from [pre], nothing lost and
    nothing added. With no position 0 in [pre] (Telegram numbers messages
    from 1), the position returned is the highest of the prior checkpoint
    and the positions observed, and it is the checkpoint stored
    afterwards, never below the prior one. *)
Theorem partial_progress (sha : str -> str) E rq ch pre w :
  get_chat E (channel_username rq) = Some ch ->
  search_messages E (chat_id ch) (limit rq * 5) = feed_of pre Raise ->
  let E' := Environ (get_chat E) (fun _ _ => feed_of pre Done) (utcnow E) in
  let prior := stored_position (chat_id ch) w in
  let seen := scan_observed sha E rq ch w in
  let out := scrape_new_messages sha E rq w in
  out = scrape_new_messages sha E' rq w /\
  lines_of (fst out) =
    messages_found
      (fst (messages_loop sha E rq (chat_title ch) prior (feed_of pre Done)
              (Locals [] 0 prior) (logged (SelectLast (chat_id ch)) w))) /\
  (exists rest, pre = seen ++ rest) /\
  (forall p, prior = Some p ->
     exists n, highest prior seen = Some n /\ (p <= n)%Z) /\
  (Forall (fun m => msg_id m <> 0%Z) pre ->
   position_of (fst out) = highest prior seen /\
   stored_position (chat_id ch) (snd out) = highest prior seen).
Proof.
  intros Hch Hfeed E' prior seen out.
  assert (Hpre : exists rest, pre = seen ++ rest).
  { destruct (scan_observed_prefix sha E rq ch w) as [rest Hrest].
    rewrite Hfeed, delivered_feed_of in Hrest. simpl in Hrest.
    rewrite app_nil_r in Hrest. exists rest. exact Hrest. }
  split; [|split; [|split; [exact Hpre | split]]].
  - unfold out, scrape_new_messages. simpl (get_chat E').
    rewrite Hch. unfold bind. rewrite !get_last_msg_id_run.
    simpl (search_messages E' _ _). rewrite Hfeed.
    assert (Hloop : forall l v,
              messages_loop sha E rq (chat_title ch) prior
                (feed_of pre Raise) l v =
              messages_loop sha E' rq (chat_title ch) prior
                (feed_of pre Done) l v).
    { intros l v.
      rewrite (proj1 (messages_loop_raise sha E rq (chat_title ch) prior
                        pre l v)).
      reflexivity. }
    fold prior. rewrite Hloop. reflexivity.
  - unfold out. rewrite (scrape_resolved sha E rq w Hch). cbv zeta.
    fold prior. rewrite Hfeed. unfold lines_of. cbn [fst].
    rewrite (proj1 (messages_loop_raise sha E rq (chat_title ch) prior
                      pre (Locals [] 0 prior)
                      (logged (SelectLast (chat_id ch)) w))).
    reflexivity.
  - intros p Hprior. rewrite Hprior. apply highest_ge.
  - intros Hnz.
    assert (Hnz' : Forall (fun m => msg_id m <> 0%Z) seen)
      by (destruct Hpre as [rest Hrest]; eapply Forall_prefix; eauto).
    destruct (scrape_checkpoint sha E rq w Hch Hnz') as (Hs & Hp & _).
    split; assumption.
Qed.

Lemma partial_progress_witness :
  let E := sample_env (Yield msg9 (Yield msg7 Raise)) in
  let out := scrape_new_messages sample_sha E sample_rq empty_db in
  search_messages E 100 (limit sample_rq * 5) = feed_of [msg9; msg7] Raise /\
  lines_of (fst out) =
    [lit "4111111111111111|01|30|999"; lit "5500000000000004|03|27|1234"] /\
  position_of (fst out) = Some 9%Z /\
  stored_position 100 (snd out) =
    highest None (scan_observed sample_sha E sample_rq sample_chat empty_db).
Proof.
  intros E out.
  assert (Hnz : Forall (fun m => msg_id m <> 0%Z) [msg9; msg7])
    by (repeat constructor; discriminate).
  split; [reflexivity|]. split; [vm_compute; reflexivity|].
  split; [vm_compute; reflexivity|].
  exact (proj2 (proj2 (proj2 (proj2 (proj2
           (@partial_progress sample_sha E sample_rq sample_chat
              [msg9; msg7] empty_db eq_refl eq_refl)))) Hnz)).
Defined.

(** C7. Scan idempotence. Take any database the scans have built, a scan
    just completed on it, and the same scan again. If the source delivers
    no message above the stored checkpoint (every message it delivers is at
    or below a checkpoint that is stored), the second scan returns no
    record and the stored position, executes the one read of the
    checkpoint and no other statement, and leaves both tables as they
    were. *)
Theorem scan_idempotence (sha : str -> str) cs E rq ch :
  let w1 := snd (run sha (cs ++ [Call E rq]) empty_db) in
  let cid := chat_id ch in
  get_chat E (channel_username rq) = Some ch ->
  (forall m, In m (delivered (search_messages E cid (limit rq * 5))) ->
     exists p, stored_position cid w1 = Some p /\ (msg_id m <= p)%Z) ->
  let out := scrape_new_messages sha E rq w1 in
  fst out = ([], chat_title ch, stored_position cid w1) /\
  same_tables w1 (snd out) /\
  stored_position cid (snd out) = stored_position cid w1 /\
  journal (snd out) = journal w1 ++ [SelectLast cid].
Proof.
  intros w1 cid Hch Hle out.
  unfold out. rewrite (scrape_resolved sha E rq w1 Hch). cbv zeta.
  fold cid.
  assert (Hloop :
    messages_loop sha E rq (chat_title ch) (stored_position cid w1)
      (search_messages E cid (limit rq * 5))
      (Locals [] 0 (stored_position cid w1)) (logged (SelectLast cid) w1) =
    (Locals [] 0 (stored_position cid w1), logged (SelectLast cid) w1)).
  { destruct (stored_position cid w1) as [p|] eqn:Hp.
    - apply messages_loop_skipped; [| |reflexivity].
      + apply stored_nonzero with (w := w1) (cid := cid); [|exact Hp].
        apply run_positions_nonzero. constructor.
      + apply Forall_forall. intros m Hm.
        destruct (Hle m Hm) as (q & [= <-] & Hq). exact Hq.
    - destruct (search_messages E cid (limit rq * 5)) as [| |m f];
        try reflexivity.
      destruct (Hle m (or_introl eq_refl)) as (q & Hq & _). discriminate. }
  rewrite Hloop.
  cbn [fst snd newest_msg_id_in_this_run messages_found].
  destruct (stored_position cid w1) as [p|] eqn:Hp;
    [|repeat split; exact Hp].
  replace (opt_eqb (Some p) (Some p)) with true
    by (symmetry; apply opt_eqb_eq; reflexivity).
  rewrite andb_false_r.
  repeat split; try exact Hp.
  destruct (truthy_int (Some p)); reflexivity.
Qed.

Lemma scan_idempotence_witness :
  let E := sample_env (Yield msg7 Done) in
  let w1 := snd (run sample_sha ([] ++ [Call E sample_rq]) empty_db) in
  stored_position 100 w1 = Some 7%Z /\
  hashes w1 = [sample_sha (lit "4111111111111111")] /\
  fst (scrape_new_messages sample_sha E sample_rq w1) =
    ([], Some (lit "chan"), stored_position 100 w1).
Proof.
  intros E w1.
  assert (Hp : stored_position (chat_id sample_chat) w1 = Some 7%Z)
    by (vm_compute; reflexivity).
  assert (Hle : forall m,
            In m (delivered (search_messages E (chat_id sample_chat)
                               (limit sample_rq * 5))) ->
            exists p, stored_position (chat_id sample_chat) w1 = Some p /\
                      (msg_id m <= p)%Z).
  { intros m [<-|[]]. exists 7%Z. split; [exact Hp | discriminate]. }
  split; [exact Hp|]. split; [vm_compute; reflexivity|].
  exact (proj1 (scan_idempotence sample_sha [] E sample_rq
                  (ch := sample_chat) eq_refl Hle)).
Defined.

(** C8. Inserts into the dedup store. A hash that [mark_card_seen] has
    inserted is found by [is_card_seen], and stays found through further
    inserts and scans. A second insert of the same hash, under any source
    label, is answered by SQLite with the integrity error that says the
    key is already there; [mark_card_seen] swallows it and returns as it
    does after a first insert, the tables are unchanged, and, the primary
    key being unique before, the store holds exactly one row for the
    hash. *)
Theorem dedup_insert_idempotent (sha : str -> str) (E : environ) :
  (forall c src src' w,
     let w1 := snd (mark_card_seen E (sha c) src w) in
     hash_in (sha c) (seen_cards w1) = true /\
     fst (fst (is_card_seen sha c src' w1)) = true) /\
  (forall h h' src w,
     hash_in h (seen_cards w) = true ->
     hash_in h (seen_cards (snd (mark_card_seen E h' src w))) = true) /\
  (forall cs w h,
     hash_in h (seen_cards w) = true ->
     hash_in h (seen_cards (snd (run sha cs w))) = true) /\
  (forall h src src' ts w,
     NoDup (hashes w) ->
     let w1 := snd (mark_card_seen E h src w) in
     let second := mark_card_seen E h src' w1 in
     fst (insert_seen h src' ts w1) = IntegrityError /\
     fst second = tt /\
     same_tables w1 (snd second) /\
     NoDup (hashes (snd second)) /\
     entries h (snd second) = 1).
Proof.
  assert (Hmark : forall h src w,
            hash_in h (seen_cards (snd (mark_card_seen E h src w))) = true).
  { intros h src w. rewrite mark_card_seen_run. cbn [snd].
    destruct (hash_in h (seen_cards w)) eqn:Hh; simpl; [exact Hh|].
    rewrite hash_in_app. simpl. rewrite str_eqb_refl, orb_true_r.
    reflexivity. }
  assert (Hkeep : forall h h' src w,
            hash_in h (seen_cards w) = true ->
            hash_in h (seen_cards (snd (mark_card_seen E h' src w))) = true).
  { intros h h' src w Hh. rewrite mark_card_seen_run. cbn [snd].
    destruct (hash_in h' (seen_cards w)); simpl; [exact Hh|].
    rewrite hash_in_app, Hh. reflexivity. }
  split; [|split; [exact Hkeep | split]].
  - intros c src src' w w1. split; [apply Hmark|].
    rewrite is_card_seen_run. simpl. apply Hmark.
  - intros cs w h. apply (emits_facts (run_emits sha cs w)).
  - intros h src src' ts w Hn w1 second.
    assert (H1 : hash_in h (seen_cards w1) = true) by apply Hmark.
    assert (Hn1 : NoDup (hashes w1)).
    { unfold w1, hashes. rewrite mark_card_seen_run. cbn [snd].
      destruct (hash_in h (seen_cards w)) eqn:Hh; simpl; [exact Hn|].
      rewrite map_app. apply NoDup_app; auto.
      - simpl. constructor; [tauto | constructor].
      - intros x Hx [<-|[]]. apply hash_in_false in Hh. contradiction. }
    assert (Hsec : snd second =
                   World (seen_cards w1) (last_scraped w1) (S (clock w1))
                         (journal w1 ++
                            [InsertSeen h src' (utcnow E (clock w1))])).
    { unfold second. rewrite mark_card_seen_run. cbn [snd].
      rewrite H1. reflexivity. }
    split; [|split; [|split; [|split]]].
    + unfold insert_seen, bind, execute. simpl. rewrite H1. reflexivity.
    + destruct (fst second). reflexivity.
    + rewrite Hsec. split; reflexivity.
    + rewrite Hsec. exact Hn1.
    + apply entries_unique; rewrite Hsec; [exact Hn1 | exact H1].
Qed.

Lemma dedup_insert_idempotent_witness :
  let h := sample_sha (lit "4111111111111111") in
  let E := sample_env Done in
  let w1 := snd (mark_card_seen E h (Some (lit "chan")) empty_db) in
  NoDup (hashes empty_db) /\
  entries h w1 = 1 /\
  entries h (snd (mark_card_seen E h (Some (lit "other")) w1)) = 1.
Proof.
  intros h E w1. split; [constructor|]. split; [vm_compute; reflexivity|].
  exact (proj2 (proj2 (proj2 (proj2
           (proj2 (proj2 (proj2 (dedup_insert_idempotent sample_sha E)))
              h (Some (lit "chan")) (Some (lit "other")) 0%Z empty_db
              (NoDup_nil _)))))).
Defined.

(** C9. Source resolution failure. When [get_chat] raises, the scan
    returns at once with no record; it executes no statement, so the
    checkpoint is neither read nor written, and the world it leaves is the
    one it found. *)
Theorem source_resolution_failure (sha : str -> str) E rq w :
  get_chat E (channel_username rq) = None ->
  let out := scrape_new_messages sha E rq w in
  out = (([], Some (lit "Invalid Channel"), Some 0%Z), w) /\
  lines_of (fst out) = [] /\
  journal (snd out) = journal w /\
  same_tables w (snd out).
Proof.
  intros H out. unfold out. rewrite (scrape_unresolved sha E rq w H).
  repeat split.
Qed.

Lemma source_resolution_failure_witness :
  get_chat nowhere (channel_username sample_rq) = None /\
  scrape_new_messages sample_sha nowhere sample_rq empty_db =
    (([], Some (lit "Invalid Channel"), Some 0%Z), empty_db).
Proof.
  split; [reflexivity|].
  exact (proj1 (source_resolution_failure sample_sha nowhere sample_rq
                  empty_db eq_refl)).
Defined.

(** C10. A limit of zero or less. On a resolved source the loop leaves at
    its first test, whatever the feed delivers or raises: no message is
    observed, no record is returned, the position returned is the prior
    checkpoint (none if there was none), the only statement executed is
    the read of the checkpoint, and both tables are as they were. *)
Theorem zero_limit (sha : str -> str) E rq ch w :
  get_chat E (channel_username rq) = Some ch ->
  (limit rq <= 0)%Z ->
  let out := scrape_new_messages sha E rq w in
  fst out = ([], chat_title ch, stored_position (chat_id ch) w) /\
  scan_observed sha E rq ch w = [] /\
  same_tables w (snd out) /\
  journal (snd out) = journal w ++ [SelectLast (chat_id ch)].
Proof.
  intros Hch Hlim out. unfold out, scan_observed.
  rewrite (scrape_resolved sha E rq w Hch). cbv zeta.
  destruct (messages_loop_limit sha E rq (chat_title ch)
              (stored_position (chat_id ch) w)
              (search_messages E (chat_id ch) (limit rq * 5))
              (Locals [] 0 (stored_position (chat_id ch) w))
              (logged (SelectLast (chat_id ch)) w) Hlim) as [-> ->].
  cbn [fst snd newest_msg_id_in_this_run messages_found].
  destruct (stored_position (chat_id ch) w) as [p|]; [|repeat split].
  replace (opt_eqb (Some p) (Some p)) with true
    by (symmetry; apply opt_eqb_eq; reflexivity).
  rewrite andb_false_r.
  repeat split. destruct (truthy_int (Some p)); reflexivity.
Qed.

Lemma zero_limit_witness :
  let rq := Request (lit "@chan") 0 None None in
  let E := sample_env (Yield msg9 (Yield msg7 Done)) in
  (limit rq <= 0)%Z /\
  scrape_new_messages sample_sha E rq empty_db =
    (([], Some (lit "chan"), None), logged (SelectLast 100) empty_db) /\
  fst (scrape_new_messages sample_sha E rq empty_db) =
    ([], chat_title sample_chat, stored_position 100 empty_db).
Proof.
  intros rq E. split; [discriminate|]. split; [vm_compute; reflexivity|].
  assert (Hlim : (limit rq <= 0)%Z) by discriminate.
  exact (proj1 (zero_limit sample_sha E rq (ch := sample_chat) empty_db
                  eq_refl Hlim)).
Defined.

(** ** The matcher against its specification *)

Module Greedy.
Import Re ReFacts.

Lemma span_max k cap u : forall t,
  Forall (fun c => in_class k c = true) u -> within (length u) cap ->
  length u <= span k cap (u ++ t).
Proof.
  revert cap. induction u as [|c u IH]; intros cap t Hu Hw; simpl; [lia|].
  inversion Hu as [|x xs Hc Hrest]; subst.
  destruct cap as [[|h]|]; simpl in Hw.
  - lia.
  - rewrite Hc. simpl. specialize (IH (Some h) t Hrest). simpl in IH.
    apply le_n_S, IH. lia.
  - rewrite Hc. simpl. apply le_n_S, (IH None t Hrest I).
Qed.

Lemma skipn_length_app (u t : str) : skipn (length u) (u ++ t) = t.
Proof. induction u as [|c u IH]; simpl; auto. Qed.

Lemma backtrack_complete cont s lo k : forall j,
  lo <= j <= k -> cont (skipn j s) <> None ->
  backtrack cont s lo k <> None.
Proof.
  induction k as [|k IH]; intros j Hj Hc; rewrite backtrack_eq.
  - replace (0 <? lo) with false by (symmetry; apply Nat.ltb_ge; lia).
    assert (j = 0) by lia. subst j.
    destruct (cont (skipn 0 s)); [discriminate | congruence].
  - replace (S k <? lo) with false by (symmetry; apply Nat.ltb_ge; lia).
    destruct (cont (skipn (S k) s)) as [m|] eqn:Hk; [discriminate|].
    apply (IH j); [|exact Hc].
    assert (j <> S k) by (intros ->; congruence). lia.
Qed.

(** The repetition count the matcher settles on is the highest that lets
    the rest of the pattern match. *)
Lemma backtrack_max cont s lo k : forall n,
  backtrack cont s lo k = Some n ->
  exists j m, lo <= j <= k /\ cont (skipn j s) = Some m /\ n = j + m /\
    forall j', j < j' <= k -> cont (skipn j' s) = None.
Proof.
  induction k as [|k IH]; intros n; rewrite backtrack_eq.
  - destruct (0 <? lo) eqn:Hlo; [discriminate|]. apply Nat.ltb_ge in Hlo.
    destruct (cont (skipn 0 s)) as [m|] eqn:Hc; [|discriminate].
    intros [= <-]. exists 0, m. repeat split; auto; lia.
  - destruct (S k <? lo) eqn:Hlo; [discriminate|]. apply Nat.ltb_ge in Hlo.
    destruct (cont (skipn (S k) s)) as [m|] eqn:Hc.
    + intros [= <-]. exists (S k), m. repeat split; auto; lia.
    + intros H. destruct (IH _ H) as (j & m & Hj & Hm & -> & Hmax).
      exists j, m. repeat split; auto; try lia.
      intros j' Hj'. destruct (Nat.eq_dec j' (S k)) as [->|Hne];
        [exact Hc | apply Hmax; lia].
Qed.

(** Where a prefix is in the language the matcher finds a match. *)
Lemma rmatch_complete r : forall s, accepts r s -> rmatch r s <> None.
Proof.
  induction r as [|a r IH]; intros s (w & post & -> & Hm); simpl;
    [discriminate|].
  inversion Hm as [|a' r' u v Hu Hlo Hhi Hv]; subst.
  rewrite <- app_assoc.
  apply backtrack_complete with (j := length u).
  - split; [exact Hlo | apply span_max; assumption].
  - rewrite skipn_length_app. apply IH. exists v, post. auto.
Qed.

Lemma rmatch_none r s : rmatch r s = None -> ~ accepts r s.
Proof. intros H Ha. apply (rmatch_complete Ha H). Qed.

(** The match the matcher returns is the greedy one. *)
Lemma rmatch_greedy r : forall s n,
  rmatch r s = Some n -> greedy r s (firstn n s).
Proof.
  induction r as [|a r IH]; intros s n; simpl.
  - intros [= <-]. constructor.
  - intros H. apply backtrack_max in H.
    destruct H as (j & m & Hj & Hm & -> & Hmax).
    destruct (span_spec (cls a) (hi a) s) as (Hs1 & Hs2 & Hs3).
    assert (Hlj : length (firstn j s) = j) by (rewrite length_firstn; lia).
    rewrite firstn_plus. rewrite <- (firstn_skipn j s) at 1.
    constructor.
    + apply Forall_firstn_le with (k := span (cls a) (hi a) s); [lia | auto].
    + lia.
    + rewrite Hlj. destruct (hi a); simpl in *; [lia | exact I].
    + apply IH, Hm.
    + intros u' t Heq Hlen Hu' Hw'. rewrite firstn_skipn in Heq.
      apply rmatch_none. rewrite <- (skipn_length_app u' t), <- Heq.
      apply Hmax. rewrite Hlj in Hlen. split; [exact Hlen|].
      rewrite Heq. apply span_max; assumption.
Qed.

Lemma leftmost_cons r c s ms :
  ~ accepts r (c :: s) -> leftmost r s ms -> leftmost r (c :: s) ms.
Proof.
  intros Hc H. inversion H as [s0 Hnone | gap m rest ms' Hgap Hg Hne Hrest];
    subst.
  - apply leftmost_none. intros [|x pre] post Heq; simpl in Heq.
    + subst post. exact Hc.
    + injection Heq as _ Heq. eapply Hnone; eauto.
  - change (c :: gap ++ m ++ rest) with ((c :: gap) ++ m ++ rest).
    apply leftmost_hit; auto.
    intros [|x a] b Heq Hb; simpl in Heq.
    + subst b. exact Hc.
    + injection Heq as _ Heq. eapply Hgap; eauto.
Qed.

Lemma findall_step_none r c s :
  rmatch r (c :: s) = None -> findall r (c :: s) = findall r s.
Proof. unfold findall. simpl. intros ->. reflexivity. Qed.

Lemma findall_step_some r s n :
  rmatch r s = Some n -> 0 < n ->
  findall r s = firstn n s :: findall r (skipn n s).
Proof.
  intros H Hn. destruct (rmatch_sound r s H) as [Hlen _].
  unfold findall. destruct s as [|c s]; [simpl in Hlen; lia|].
  cbn [findall_from]. rewrite H. f_equal.
  destruct n as [|n]; [lia|]. simpl in Hlen |- *.
  assert (Hl : length (firstn n s) = n) by (rewrite length_firstn; lia).
  pose proof (findall_from_skip r (firstn n s) (skipn n s)) as Hs.
  rewrite firstn_skipn, Hl in Hs. exact Hs.
Qed.

(** What [findall] returns are the leftmost greedy matches, one after the
    other, for a pattern that matches no empty string. *)
Lemma findall_leftmost r :
  (forall s n, rmatch r s = Some n -> 0 < n) ->
  forall s, leftmost r s (findall r s).
Proof.
  intros Hpos s.
  remember (length s) as k eqn:Hk.
  revert s Hk. induction k as [k IH] using lt_wf_ind. intros s Hk.
  destruct (rmatch r s) as [n|] eqn:Hm.
  - pose proof (Hpos s n Hm) as Hn.
    destruct (rmatch_sound r s Hm) as [Hlen _].
    rewrite (findall_step_some r s Hm Hn).
    rewrite <- (firstn_skipn n s) at 1.
    change (firstn n s ++ skipn n s)
      with ([] ++ firstn n s ++ skipn n s).
    apply leftmost_hit.
    + intros [|x a] b Heq Hb; simpl in Heq; [congruence | discriminate].
    + rewrite firstn_skipn. apply rmatch_greedy, Hm.
    + destruct s; [simpl in Hlen; lia|].
      destruct n; [lia | discriminate].
    + apply IH with (m := length (skipn n s)); [|reflexivity].
      rewrite length_skipn. lia.
  - destruct s as [|c s].
    + replace (findall r []) with (@nil str)
        by (unfold findall; simpl; rewrite Hm; reflexivity).
      apply leftmost_none. intros pre post Heq.
      symmetry in Heq. apply app_eq_nil in Heq. destruct Heq as [_ ->].
      apply rmatch_none, Hm.
    + rewrite (findall_step_none r c s Hm).
      apply leftmost_cons; [apply rmatch_none, Hm|].
      apply IH with (m := length s); [subst k; simpl; lia | reflexivity].
Qed.

Lemma pattern_positive s n : rmatch pattern s = Some n -> 0 < n.
Proof.
  intros H. destruct (rmatch_sound pattern s H) as [Hlen Hm].
  destruct (Runs.pattern_coarse Hm)
    as (d16 & s1 & d2 & s2 & dy & s3 & dc & Heq & Hc).
  destruct Hc as (_ & L16 & _).
  apply (f_equal (@length ascii)) in Heq. simpl in Heq.
  rewrite length_app, L16, length_firstn in Heq. lia.
Qed.

End Greedy.

(** The last two characters of a string of two or more. *)
Lemma last2_spec (s : str) :
  2 <= length s ->
  exists cut, s = cut ++ last2 s /\ length (last2 s) = 2.
Proof.
  intros H. exists (firstn (length s - 2) s). unfold last2.
  rewrite firstn_skipn, length_skipn. split; [reflexivity | lia].
Qed.

(** C4. For every text, the coarse matches [re.findall(pattern, text)]
    returns are the leftmost greedy matches of the positional grammar,
    one after the other: before each no position accepts the grammar,
    each group takes as many characters as it can with the rest still
    matching, and the search goes on behind the match. Every coarse
    match [m] is a substring of the text that reads 16 digits, separators,
    2 digits, separators, 2 to 4 digits, separators, 3 to 4 digits. Its
    digit runs are the maximal ones. When there are four, the separators
    are not empty and the match yields the one record (primary
    identifier, month, the year without all but its last two characters,
    security code), with which the scan goes on; with any other number of
    runs the match yields no record and the scan's state is left as it
    was. *)
Theorem extraction_grammar (text : str) :
  leftmost pattern text (Re.findall pattern text) /\
  forall m, In m (Re.findall pattern text) ->
    (exists pre post, text = pre ++ m ++ post) /\
    exists d16 s1 d2 s2 dy s3 dc,
      m = d16 ++ s1 ++ d2 ++ s2 ++ dy ++ s3 ++ dc /\
      coarse d16 s1 d2 s2 dy s3 dc /\
      Re.findall digit_run m = merged d16 [(s1, d2); (s2, dy); (s3, dc)] /\
      (length (Re.findall digit_run m) = 4 ->
       s1 <> [] /\ s2 <> [] /\ s3 <> [] /\
       Re.findall digit_run m = [d16; d2; dy; dc] /\
       exists cut yy,
         dy = cut ++ yy /\ length yy = 2 /\
         parse_match m = Some (d16, d2, yy, dc) /\
         parse_match m = Some (d16, d2, last2 dy, dc) /\
         forall sha E rq title l,
           on_match sha E rq title m l =
           on_record sha E rq title (d16, d2, yy, dc) l) /\
      (length (Re.findall digit_run m) <> 4 ->
       (s1 = [] \/ s2 = [] \/ s3 = []) /\
       parse_match m = None /\
       forall sha E rq title l w, on_match sha E rq title m l w = (l, w)).
Proof.
  split; [apply Greedy.findall_leftmost, Greedy.pattern_positive|].
  intros m Hin.
  apply ReFacts.findall_sound in Hin. destruct Hin as [Hm Hsub].
  split; [exact Hsub|].
  destruct (Runs.pattern_coarse Hm)
    as (d16 & s1 & d2 & s2 & dy & s3 & dc & -> & Hc).
  exists d16, s1, d2, s2, dy, s3, dc.
  pose proof (Runs.coarse_runs Hc) as Hruns.
  split; [reflexivity|]. split; [exact Hc|]. split; [exact Hruns|].
  assert (Hdy : 2 <= length dy) by (destruct Hc as (_&_&_&_&_&_&_&H&_); lia).
  destruct (last2_spec dy Hdy) as (cut & Hcut & Hyy).
  unfold on_match, parse_match. rewrite Hruns.
  destruct s1 as [|a1 s1], s2 as [|a2 s2], s3 as [|a3 s3]; simpl;
    (split; intros Hlen;
     [ try discriminate Hlen
     | first [ exfalso; apply Hlen; reflexivity
             | split; [auto|]; split; reflexivity ] ]).
  repeat (split; [discriminate|]). split; [reflexivity|].
  exists cut, (last2 dy). repeat split; auto.
Qed.

Lemma extraction_grammar_witness :
  let text := lit "card: 4111111111111111 12/2025 123 ok" in
  let m := lit "4111111111111111 12/2025 123" in
  Re.findall pattern text = [m] /\
  Re.findall digit_run m =
    [lit "4111111111111111"; lit "12"; lit "2025"; lit "123"] /\
  parse_match m =
    Some (lit "4111111111111111", lit "12", lit "25", lit "123") /\
  leftmost pattern text [m] /\
  exists d16 d2 dy dc cut yy,
    dy = cut ++ yy /\ length yy = 2 /\
    Re.findall digit_run m = [d16; d2; dy; dc] /\
    parse_match m = Some (d16, d2, yy, dc).
Proof.
  intros text m.
  assert (Hall : Re.findall pattern text = [m]) by (vm_compute; reflexivity).
  assert (Hlen : length (Re.findall digit_run m) = 4)
    by (vm_compute; reflexivity).
  split; [exact Hall|]. split; [vm_compute; reflexivity|].
  split; [vm_compute; reflexivity|].
  destruct (extraction_grammar text) as [Hleft Heach].
  rewrite Hall in Hleft. split; [exact Hleft|].
  assert (Hin : In m (Re.findall pattern text))
    by (rewrite Hall; left; reflexivity).
  destruct (Heach m Hin)
    as (_ & d16 & s1 & d2 & s2 & dy & s3 & dc & _ & _ & _ & H4 & _).
  destruct (H4 Hlen) as (_ & _ & _ & Hruns & cut & yy & Hcut & Hyy & Hp & _).
  exists d16, d2, dy, dc, cut, yy. auto.
Defined.

(** ** The spec's scenarios, run *)

(** An empty store and a source with the one message
    ["4111111111111111 12/25 123"]: one record, the checkpoint at the
    message's position, one entry in the store. Scanned again: nothing. *)
Example scenario_first_scan :
  let out := scrape_new_messages sample_sha (sample_env (Yield msg7 Done))
               sample_rq empty_db in
  fst out = ([lit "4111111111111111|12|25|123"], Some (lit "chan"), Some 7%Z)
  /\ stored_position 100 (snd out) = Some 7%Z
  /\ length (seen_cards (snd out)) = 1.
Proof. vm_compute. repeat split. Qed.

Example scenario_second_scan :
  let E := sample_env (Yield msg7 Done) in
  let w1 := snd (scrape_new_messages sample_sha E sample_rq empty_db) in
  let out := scrape_new_messages sample_sha E sample_rq w1 in
  fst out = ([], Some (lit "chan"), Some 7%Z)
  /\ stored_position 100 (snd out) = Some 7%Z
  /\ length (seen_cards (snd out)) = 1.
Proof. vm_compute. repeat split. Qed.

(** [\d{16}] takes any 16 digits in a row, also out of a longer run: here
    the match starts at the fifth digit. *)
Example window_in_longer_run :
  Re.findall pattern (lit "12345678901234567890 12 25 123") =
  [lit "5678901234567890 12 25 123"].
Proof. vm_compute. reflexivity. Qed.

(** Groups with no separator between them are one run, and the match
    yields no record. *)
Example glued_groups_no_record :
  Re.findall pattern (lit "41111111111111111225 123") =
    [lit "41111111111111111225 123"] /\
  parse_match (lit "41111111111111111225 123") = None.
Proof. vm_compute. split; reflexivity. Qed.

(** A coarse match that starts earlier hides a record written after it:
    the first 23 digits are a match of one run, which yields no record,
    and what is left of the text holds no 16 digits. *)
Example glued_match_hides_record :
  let text := lit "41111111111111111220251 12 25 123" in
  Re.findall pattern text = [lit "41111111111111111220251"] /\
  leftmost pattern text [lit "41111111111111111220251"] /\
  parse_match (lit "41111111111111111220251") = None /\
  lines_of (fst (scrape_new_messages sample_sha
                   (sample_env (Yield (Message 7 (Some text) None) Done))
                   sample_rq empty_db)) = [].
Proof.
  intros text.
  assert (Hall : Re.findall pattern text = [lit "41111111111111111220251"])
    by (vm_compute; reflexivity).
  split; [exact Hall|]. split.
  - rewrite <- Hall. apply Greedy.findall_leftmost, Greedy.pattern_positive.
  - vm_compute. split; reflexivity.
Qed.

(* ================================================================= *)
(** * Further properties of the code *)

(** ** The checkpoint table *)

(** X1. [update_last_msg_id] then [get_last_msg_id]: the channel reads back
    the position written, every other channel reads what it read before,
    the table holds exactly one row for the channel, and [seen_cards] is
    not touched. *)
Theorem checkpoint_upsert_roundtrip (E : environ) (cid pos : Z) (w : world) :
  let w1 := snd (update_last_msg_id E cid pos w) in
  fst (get_last_msg_id cid w1) = Some pos /\
  (forall cid', cid' <> cid ->
     fst (get_last_msg_id cid' w1) = fst (get_last_msg_id cid' w)) /\
  length (filter (fun r => channel_id r =? cid)%Z (last_scraped w1)) = 1 /\
  seen_cards w1 = seen_cards w.
Proof.
  intros w1. rewrite !get_last_msg_id_run. cbn [fst].
  split; [|split; [|split]].
  - unfold w1. rewrite stored_after_update, Z.eqb_refl. reflexivity.
  - intros cid' Hne. rewrite get_last_msg_id_run. cbn [fst].
    unfold w1. rewrite stored_after_update.
    apply Z.eqb_neq in Hne. rewrite Hne. reflexivity.
  - unfold w1. rewrite update_last_msg_id_run. cbn [snd last_scraped].
    rewrite filter_app. simpl. rewrite Z.eqb_refl. rewrite length_app. simpl.
    assert (H : filter (fun r => (channel_id r =? cid)%Z)
                  (filter (fun r => negb (channel_id r =? cid)%Z)
                     (last_scraped w)) = []).
    { induction (last_scraped w) as [|r t IH]; simpl; [reflexivity|].
      destruct (channel_id r =? cid)%Z eqn:Hr; simpl; [exact IH|].
      rewrite Hr. exact IH. }
    rewrite H. reflexivity.
  - unfold w1. rewrite update_last_msg_id_run. reflexivity.
Qed.

(** ** The dedup table over a run *)

Lemma emits_rows sha lines w w' :
  emits sha lines w w' ->
  exists rows,
    seen_cards w' = seen_cards w ++ rows /\
    map card_hash rows = map (hash_of sha) lines /\
    length rows = length lines.
Proof.
  intros (rows & Hs & Hm & _). exists rows. split; [exact Hs|].
  split; [exact Hm|].
  rewrite <- (length_map card_hash rows), Hm, length_map. reflexivity.
Qed.

(** X2. Over any sequence of scans [seen_cards] only grows at its end: the
    rows it had stay as they were and where they were, and one row is
    added for each line emitted, in the order of emission, under the
    digest of the line's primary identifier. *)
Theorem seen_cards_append_only (sha : str -> str) (cs : list call) (w : world) :
  let out := run sha cs w in
  exists rows,
    seen_cards (snd out) = seen_cards w ++ rows /\
    map card_hash rows = map (hash_of sha) (emitted (fst out)) /\
    length rows = length (emitted (fst out)).
Proof. intros out. apply emits_rows, run_emits. Qed.

(** ** The position a scan returns and the checkpoints it leaves *)

(** X3. The position a scan of a resolved source returns is the
    checkpoint stored for the source when the scan ends, whatever the feed
    delivered; and it is never below the checkpoint the scan found. *)
Theorem returned_position_is_stored (sha : str -> str) E rq ch w :
  get_chat E (channel_username rq) = Some ch ->
  let out := scrape_new_messages sha E rq w in
  position_of (fst out) = stored_position (chat_id ch) (snd out) /\
  (forall p, stored_position (chat_id ch) w = Some p ->
     exists n, position_of (fst out) = Some n /\ (p <= n)%Z).
Proof.
  intros Hch out. unfold out.
  rewrite (scrape_resolved sha E rq w Hch). cbv zeta.
  pose proof (messages_loop_newest sha E rq (chat_title ch)
                (stored_position (chat_id ch) w)
                (search_messages E (chat_id ch) (limit rq * 5))
                (Locals [] 0 (stored_position (chat_id ch) w))
                (logged (SelectLast (chat_id ch)) w)) as Hnew.
  destruct (messages_loop sha E rq (chat_title ch)
              (stored_position (chat_id ch) w)
              (search_messages E (chat_id ch) (limit rq * 5))
              (Locals [] 0 (stored_position (chat_id ch) w))
              (logged (SelectLast (chat_id ch)) w)) as [l w1] eqn:Hl.
  apply messages_loop_grows in Hl.
  destruct Hl as (new & js & _ & _ & _ & Hls & _).
  simpl in Hls, Hnew. unfold position_of. cbn [fst snd].
  assert (Hw1 : stored_position (chat_id ch) w1 =
                stored_position (chat_id ch) w)
    by (apply same_last_stored; exact Hls).
  set (prior := stored_position (chat_id ch) w) in *.
  set (obs := observed sha E rq (chat_title ch) prior
                (search_messages E (chat_id ch) (limit rq * 5))
                (Locals [] 0 prior) (logged (SelectLast (chat_id ch)) w)) in *.
  destruct (newest_msg_id_in_this_run l) as [n|] eqn:Hn.
  - destruct (truthy_int (Some n)) eqn:Ht; cbn [andb].
    + destruct (opt_eqb (Some n) prior) eqn:Heq; cbn [negb].
      * apply opt_eqb_eq in Heq. split; [congruence|].
        intros p Hp. exists n. split; [reflexivity|].
        rewrite Hp in Heq. injection Heq as ->. lia.
      * split; [rewrite stored_after_update, Z.eqb_refl; reflexivity|].
        intros p Hp. exists n. split; [reflexivity|].
        rewrite Hp in Hnew.
        destruct (highest_ge obs p) as (n' & Hn' & Hle).
        rewrite Hn' in Hnew. injection Hnew as ->. exact Hle.
    + split; [symmetry; exact Hw1|].
      intros p Hp. exists p. split; [exact Hp | lia].
  - split; [symmetry; exact Hw1|].
    intros p Hp. exists p. split; [exact Hp | lia].
Qed.

Lemma returned_position_is_stored_witness :
  let E := sample_env (Yield msg9 (Yield msg7 Raise)) in
  let out := scrape_new_messages sample_sha E sample_rq empty_db in
  get_chat E (channel_username sample_rq) = Some sample_chat /\
  position_of (fst out) = Some 9%Z /\
  position_of (fst out) = stored_position 100 (snd out).
Proof.
  intros E out. split; [reflexivity|]. split; [vm_compute; reflexivity|].
  exact (proj1 (returned_position_is_stored sample_sha E sample_rq
                  (ch := sample_chat) empty_db eq_refl)).
Defined.

(** X4. A scan leaves the checkpoint of every channel other than the one
    it resolves as it was; a scan that resolves none leaves all of
    them. *)
Theorem scan_keeps_other_checkpoints (sha : str -> str) E rq w cid :
  (forall ch, get_chat E (channel_username rq) = Some ch ->
     chat_id ch <> cid) ->
  stored_position cid (snd (scrape_new_messages sha E rq w)) =
  stored_position cid w.
Proof.
  intros Hother.
  destruct (get_chat E (channel_username rq)) as [ch|] eqn:Hch.
  2:{ rewrite (scrape_unresolved sha E rq w Hch). reflexivity. }
  specialize (Hother ch eq_refl).
  rewrite (scrape_resolved sha E rq w Hch). cbv zeta.
  destruct (messages_loop sha E rq (chat_title ch)
              (stored_position (chat_id ch) w)
              (search_messages E (chat_id ch) (limit rq * 5))
              (Locals [] 0 (stored_position (chat_id ch) w))
              (logged (SelectLast (chat_id ch)) w)) as [l w1] eqn:Hl.
  apply messages_loop_grows in Hl.
  destruct Hl as (new & js & _ & _ & _ & Hls & _).
  simpl in Hls. cbn [fst snd].
  assert (Hw1 : stored_position cid w1 = stored_position cid w)
    by (apply same_last_stored; exact Hls).
  destruct (newest_msg_id_in_this_run l) as [n|]; [|exact Hw1].
  match goal with |- context [if ?b then _ else _] => destruct b end;
    [|exact Hw1].
  rewrite stored_after_update.
  replace (cid =? chat_id ch)%Z with false
    by (symmetry; apply Z.eqb_neq; congruence).
  exact Hw1.
Qed.

Lemma scan_keeps_other_checkpoints_witness :
  let E := sample_env (Yield msg9 Done) in
  let w := snd (update_last_msg_id E 200 5 empty_db) in
  stored_position 200 w = Some 5%Z /\
  stored_position 100
    (snd (scrape_new_messages sample_sha E sample_rq w)) = Some 9%Z /\
  stored_position 200
    (snd (scrape_new_messages sample_sha E sample_rq w)) =
  stored_position 200 w.
Proof.
  intros E w. split; [reflexivity|]. split; [vm_compute; reflexivity|].
  apply scan_keeps_other_checkpoints.
  intros ch [= <-]. discriminate.
Defined.

(** ** How far a scan can go past its limit *)

Section LimitFacts.

Variable sha : str -> str.
Variable E : environ.
Variable rq : request.

Lemma on_match_count title m l w :
  let l' := fst (on_match sha E rq title m l w) in
  (count l <= count l' <= count l + 1)%Z.
Proof.
  unfold on_match. destruct (parse_match m) as [[[[c mo] y] cvv]|];
    [|simpl; lia].
  destruct (on_record_cases sha E rq title c mo y cvv l w)
    as [(-> & _) | (_ & _ & -> & _)]; simpl; lia.
Qed.

Lemma on_matches_count title ms : forall l w,
  let l' := fst (on_matches sha E rq title ms l w) in
  (count l <= count l' <= count l + Z.of_nat (length ms))%Z.
Proof.
  induction ms as [|m ms IH]; intros l w; simpl; [lia|].
  unfold bind. pose proof (on_match_count title m l w) as H1.
  destruct (on_match sha E rq title m l w) as [l1 w1]. simpl in H1.
  specialize (IH l1 w1). simpl in IH. lia.
Qed.

Lemma on_message_count title last m l w :
  let l' := fst (on_message sha E rq title last m l w) in
  (count l <= count l' <= count l + Z.of_nat (matches_in m))%Z.
Proof.
  unfold on_message, matches_in.
  destruct (track_rest m l) as [_ Hc].
  destruct (already_scraped last m); [simpl; lia|].
  destruct (text_of m) as [[|c t]|]; try (simpl; lia).
  destruct (bank_rejects rq (c :: t)); [simpl; lia|].
  pose proof (on_matches_count title (Re.findall pattern (c :: t))
                (track m l) w) as H.
  simpl in H. lia.
Qed.

Lemma messages_loop_count title last k f : forall l w,
  Forall (fun m => matches_in m <= k) (delivered f) ->
  (count l <= Z.max 0 (limit rq - 1) + Z.of_nat k)%Z ->
  (count (fst (messages_loop sha E rq title last f l w))
   <= Z.max 0 (limit rq - 1) + Z.of_nat k)%Z.
Proof.
  induction f as [| |m f IH]; intros l w Hk Hl; simpl; try exact Hl.
  destruct (limit rq <=? count l)%Z eqn:Hlim; [exact Hl|].
  apply Z.leb_gt in Hlim. simpl in Hk. inversion Hk as [|x xs Hm Hrest]; subst.
  unfold bind. pose proof (on_message_count title last m l w) as H1.
  destruct (on_message sha E rq title last m l w) as [l1 w1]. simpl in H1.
  apply IH; [exact Hrest | lia].
Qed.

End LimitFacts.

(** X5. The limit is tested once per message, before the message is
    processed, so a scan can return more lines than its limit, but no
    more than the last message it processes adds: if no delivered message
    holds more than [k] coarse matches, the scan returns at most
    [max 0 (limit - 1) + k] lines. With a limit of zero or less it
    returns none. *)
Theorem limit_overshoot_bound (sha : str -> str) E rq w (k : nat) :
  (forall ch, get_chat E (channel_username rq) = Some ch ->
     Forall (fun m => matches_in m <= k)
            (delivered (search_messages E (chat_id ch) (limit rq * 5)))) ->
  let lines := lines_of (fst (scrape_new_messages sha E rq w)) in
  (Z.of_nat (length lines) <= Z.max 0 (limit rq - 1) + Z.of_nat k)%Z /\
  ((limit rq <= 0)%Z -> lines = []).
Proof.
  intros Hk lines. unfold lines.
  destruct (get_chat E (channel_username rq)) as [ch|] eqn:Hch.
  2:{ rewrite (scrape_unresolved sha E rq w Hch). simpl. split; [lia | auto]. }
  specialize (Hk ch eq_refl).
  rewrite (scrape_resolved sha E rq w Hch). cbv zeta.
  unfold lines_of. cbn [fst].
  pose proof (messages_loop_count sha E rq (chat_title ch)
                (stored_position (chat_id ch) w)
                (search_messages E (chat_id ch) (limit rq * 5))
                (Locals [] 0 (stored_position (chat_id ch) w))
                (logged (SelectLast (chat_id ch)) w) Hk) as Hb.
  pose proof (messages_loop_limit sha E rq (chat_title ch)
                (stored_position (chat_id ch) w)
                (search_messages E (chat_id ch) (limit rq * 5))
                (Locals [] 0 (stored_position (chat_id ch) w))
                (logged (SelectLast (chat_id ch)) w)) as Hz.
  destruct (messages_loop sha E rq (chat_title ch)
              (stored_position (chat_id ch) w)
              (search_messages E (chat_id ch) (limit rq * 5))
              (Locals [] 0 (stored_position (chat_id ch) w))
              (logged (SelectLast (chat_id ch)) w)) as [l w1] eqn:Hl.
  apply messages_loop_grows in Hl.
  destruct Hl as (new & js & Hf & Hc & _). simpl in Hf, Hc, Hb, Hz.
  cbn [fst]. rewrite Hf. split.
  - rewrite <- Hc. apply Hb. lia.
  - intros Hlim. destruct (Hz Hlim) as [Heq _].
    injection Heq as Hl1 _. rewrite Hl1 in Hf. simpl in Hf.
    symmetry. exact Hf.
Qed.

Lemma limit_overshoot_bound_witness :
  let rq := Request (lit "@chan") 1 None None in
  let E := sample_env (Yield msg9 (Yield msg7 Done)) in
  lines_of (fst (scrape_new_messages sample_sha E rq empty_db)) =
    [lit "4111111111111111|01|30|999"; lit "5500000000000004|03|27|1234"] /\
  (Z.of_nat (length (lines_of
     (fst (scrape_new_messages sample_sha E rq empty_db))))
   <= Z.max 0 (limit rq - 1) + Z.of_nat 2)%Z.
Proof.
  intros rq E. split; [vm_compute; reflexivity|].
  apply (limit_overshoot_bound sample_sha E rq empty_db (k := 2)).
  intros ch _. simpl. repeat constructor.
Defined.

(** ** Messages at or below the checkpoint *)

Section OldFacts.

Variable sha : str -> str.
Variable E : environ.
Variable rq : request.

Lemma on_message_old title p n m l w :
  p <> 0%Z -> (msg_id m <= p)%Z -> (p <= n)%Z ->
  newest_msg_id_in_this_run l = Some n ->
  on_message sha E rq title (Some p) m l w = (l, w).
Proof.
  intros Hp Hm Hn Hl. unfold on_message, track, already_scraped. rewrite Hl.
  replace (n <? msg_id m)%Z with false by (symmetry; apply Z.ltb_ge; lia).
  replace (p =? 0)%Z with false by (symmetry; apply Z.eqb_neq; lia).
  replace (msg_id m <=? p)%Z with true by (symmetry; apply Z.leb_le; lia).
  reflexivity.
Qed.

Lemma messages_loop_newer title p f : forall l w n,
  p <> 0%Z -> (p <= n)%Z -> newest_msg_id_in_this_run l = Some n ->
  messages_loop sha E rq title (Some p) f l w =
  messages_loop sha E rq title (Some p) (newer_than p f) l w.
Proof.
  induction f as [| |m f IH]; intros l w n Hp Hn Hl; simpl; try reflexivity.
  destruct (msg_id m <=? p)%Z eqn:Hm.
  - apply Z.leb_le in Hm.
    destruct (limit rq <=? count l)%Z eqn:Hlim.
    + apply Z.leb_le in Hlim. symmetry.
      apply (messages_loop_limit sha E rq title (Some p)
               (newer_than p f) l w Hlim).
    + unfold bind. rewrite on_message_old with (n := n) by assumption.
      apply IH with (n := n); assumption.
  - simpl. destruct (limit rq <=? count l)%Z; [reflexivity|].
    unfold bind.
    pose proof (on_message_newest sha E rq title (Some p) m l w) as Hnew.
    destruct (on_message sha E rq title (Some p) m l w) as [l1 w1].
    simpl in Hnew. rewrite Hl in Hnew. simpl in Hnew.
    apply IH with (n := Z.max n (msg_id m)); [assumption | lia | assumption].
Qed.

End OldFacts.

(** X6. On any database the scans have built, a scan of a source with a
    stored checkpoint [p] goes as if the messages at or below [p] were not
    in the feed: same lines, same position, same database. They are not
    read for records, and they neither move the checkpoint nor count
    towards the limit. *)
Theorem old_messages_ignored (sha : str -> str) cs E rq ch p :
  let w := snd (run sha cs empty_db) in
  get_chat E (channel_username rq) = Some ch ->
  stored_position (chat_id ch) w = Some p ->
  let E' := Environ (get_chat E)
                    (fun c n => newer_than p (search_messages E c n))
                    (utcnow E) in
  scrape_new_messages sha E rq w = scrape_new_messages sha E' rq w.
Proof.
  intros w Hch Hp E'.
  assert (Hnz : p <> 0%Z).
  { apply stored_nonzero with (w := w) (cid := chat_id ch); [|exact Hp].
    apply run_positions_nonzero. constructor. }
  unfold scrape_new_messages. simpl (get_chat E'). rewrite Hch.
  unfold bind. rewrite !get_last_msg_id_run. rewrite Hp.
  simpl (search_messages E' _ _).
  rewrite (messages_loop_newer sha E rq (chat_title ch)
             (search_messages E (chat_id ch) (limit rq * 5))
             (Locals [] 0 (Some p)) (logged (SelectLast (chat_id ch)) w)
             (n := p) Hnz (Z.le_refl p) eq_refl).
  reflexivity.
Qed.

Lemma old_messages_ignored_witness :
  let E1 := sample_env (Yield msg7 Done) in
  let E := sample_env (Yield msg9 (Yield msg7 Done)) in
  let w := snd (run sample_sha [Call E1 sample_rq] empty_db) in
  stored_position 100 w = Some 7%Z /\
  lines_of (fst (scrape_new_messages sample_sha E sample_rq w)) =
    [lit "5500000000000004|03|27|1234"] /\
  scrape_new_messages sample_sha E sample_rq w =
  scrape_new_messages sample_sha (sample_env (Yield msg9 Done)) sample_rq w.
Proof.
  intros E1 E w.
  assert (Hp : stored_position (chat_id sample_chat) w = Some 7%Z)
    by (vm_compute; reflexivity).
  split; [exact Hp|]. split; [vm_compute; reflexivity|].
  exact (old_messages_ignored sample_sha [Call E1 sample_rq] E sample_rq
           (ch := sample_chat) eq_refl Hp).
Defined.

(** ** Messages without text *)

(** X7. Messages that carry neither text nor caption (or empty ones)
    yield nothing and cost nothing: a scan of a feed of such messages
    returns no line and adds no row to [seen_cards], and with a positive
    limit it takes every message delivered, so their positions still move
    the checkpoint. *)
Theorem textless_messages (sha : str -> str) E rq ch w :
  get_chat E (channel_username rq) = Some ch ->
  let feed := search_messages E (chat_id ch) (limit rq * 5) in
  Forall (fun m => truthy_str (text_of m) = false) (delivered feed) ->
  let out := scrape_new_messages sha E rq w in
  lines_of (fst out) = [] /\
  seen_cards (snd out) = seen_cards w /\
  ((0 < limit rq)%Z ->
   scan_observed sha E rq ch w = delivered feed /\
   (Forall (fun m => msg_id m <> 0%Z) (delivered feed) ->
    stored_position (chat_id ch) (snd out) =
    highest (stored_position (chat_id ch) w) (delivered feed))).
Proof.
  intros Hch feed Hno out.
  assert (Hloop : forall f l w0,
            Forall (fun m => truthy_str (text_of m) = false) (delivered f) ->
            let r := messages_loop sha E rq (chat_title ch)
                       (stored_position (chat_id ch) w) f l w0 in
            messages_found (fst r) = messages_found l /\
            count (fst r) = count l /\
            seen_cards (snd r) = seen_cards w0).
  { induction f as [| |m f IH]; intros l w0 Hf; simpl; auto.
    destruct (limit rq <=? count l)%Z; [simpl; auto|].
    simpl in Hf. inversion Hf as [|x xs Hm Hrest]; subst.
    unfold bind.
    assert (Hon : on_message sha E rq (chat_title ch)
                    (stored_position (chat_id ch) w) m l w0 =
                  (track m l, w0)).
    { unfold on_message.
      destruct (already_scraped (stored_position (chat_id ch) w) m);
        [reflexivity|].
      destruct (text_of m) as [[|c t]|]; try reflexivity.
      simpl in Hm. discriminate. }
    rewrite Hon. destruct (track_rest m l) as [Ht1 Ht2].
    destruct (IH (track m l) w0 Hrest) as (H1 & H2 & H3).
    rewrite H1, H2, H3. auto. }
  pose proof (scrape_emits sha E rq w) as [Hem _].
  fold out in Hem.
  assert (Hlines : lines_of (fst out) = []).
  { unfold out. rewrite (scrape_resolved sha E rq w Hch). cbv zeta.
    unfold lines_of. cbn [fst].
    apply (Hloop feed (Locals [] 0 (stored_position (chat_id ch) w))
                 (logged (SelectLast (chat_id ch)) w) Hno). }
  split; [exact Hlines|]. split.
  - destruct (emits_rows Hem) as (rows & Hs & _ & Hlen).
    rewrite Hlines in Hlen. destruct rows; [|discriminate].
    rewrite Hs. apply app_nil_r.
  - intros Hpos.
    assert (Hobs : scan_observed sha E rq ch w = delivered feed).
    { apply scan_observed_all; [exact Hch|].
      fold out. rewrite Hlines. simpl. lia. }
    split; [exact Hobs|]. intros Hnz. rewrite <- Hobs in Hnz |- *.
    apply (scrape_checkpoint sha E rq w Hch Hnz).
Qed.

Lemma textless_messages_witness :
  let photo := Message 12 None None in
  let E := sample_env (Yield photo Done) in
  let out := scrape_new_messages sample_sha E sample_rq empty_db in
  Forall (fun m => truthy_str (text_of m) = false)
         (delivered (search_messages E 100 (limit sample_rq * 5))) /\
  lines_of (fst out) = [] /\
  stored_position 100 (snd out) = Some 12%Z.
Proof.
  intros photo E out.
  assert (Hno : Forall (fun m => truthy_str (text_of m) = false)
                  (delivered (search_messages E (chat_id sample_chat)
                                (limit sample_rq * 5))))
    by (repeat constructor).
  split; [exact Hno|].
  split; [|vm_compute; reflexivity].
  exact (proj1 (textless_messages sample_sha E sample_rq
                  (ch := sample_chat) empty_db eq_refl Hno)).
Defined.

(** ** What of a request the scan looks at *)

Section RequestFacts.

Variable sha : str -> str.
Variable E : environ.
Variables rq rq' : request.

Hypothesis same_channel : channel_username rq = channel_username rq'.
Hypothesis same_limit : limit rq = limit rq'.
Hypothesis same_bin : forall c, bin_rejects rq c = bin_rejects rq' c.
Hypothesis same_bank : forall t, bank_rejects rq t = bank_rejects rq' t.

Lemma on_record_ext title rec l w :
  on_record sha E rq title rec l w = on_record sha E rq' title rec l w.
Proof.
  destruct rec as [[[c mo] y] cvv]. unfold on_record.
  rewrite same_bin. reflexivity.
Qed.

Lemma on_matches_ext title ms : forall l w,
  on_matches sha E rq title ms l w = on_matches sha E rq' title ms l w.
Proof.
  induction ms as [|m ms IH]; intros l w; simpl; [reflexivity|].
  unfold bind, on_match.
  destruct (parse_match m) as [rec|].
  - rewrite on_record_ext.
    destruct (on_record sha E rq' title rec l w) as [l1 w1]. apply IH.
  - simpl. apply IH.
Qed.

Lemma on_message_ext title last m l w :
  on_message sha E rq title last m l w =
  on_message sha E rq' title last m l w.
Proof.
  unfold on_message.
  destruct (already_scraped last m); [reflexivity|].
  destruct (text_of m) as [[|c t]|]; try reflexivity.
  rewrite same_bank. destruct (bank_rejects rq' (c :: t)); [reflexivity|].
  apply on_matches_ext.
Qed.

Lemma messages_loop_ext title last f : forall l w,
  messages_loop sha E rq title last f l w =
  messages_loop sha E rq' title last f l w.
Proof.
  induction f as [| |m f IH]; intros l w; simpl; try reflexivity.
  rewrite same_limit. destruct (limit rq' <=? count l)%Z; [reflexivity|].
  unfold bind. rewrite on_message_ext.
  destruct (on_message sha E rq' title last m l w) as [l1 w1]. apply IH.
Qed.

Lemma scrape_ext w :
  scrape_new_messages sha E rq w = scrape_new_messages sha E rq' w.
Proof.
  unfold scrape_new_messages. rewrite same_channel.
  destruct (get_chat E (channel_username rq')) as [ch|]; [|reflexivity].
  unfold bind. destruct (get_last_msg_id (chat_id ch) w) as [last w0].
  rewrite same_limit, messages_loop_ext. reflexivity.
Qed.

End RequestFacts.

Lemma lower_nil (s : str) : lower s = [] -> s = [].
Proof. destruct s; [reflexivity | discriminate]. Qed.

(** X8. The bank filter does not see the case of the name it is given:
    two requests that differ only in a bank name, the two names the same
    once lower-cased, give the same scan: same lines, same position, same
    database. *)
Theorem bank_filter_case_insensitive (sha : str -> str) E u n sn b b' w :
  lower b = lower b' ->
  scrape_new_messages sha E (Request u n sn (Some b)) w =
  scrape_new_messages sha E (Request u n sn (Some b')) w.
Proof.
  intros Hlow. apply scrape_ext; try reflexivity.
  intros t. unfold bank_rejects. cbn [bank_name].
  destruct b as [|c bn], b' as [|c' bn']; try reflexivity.
  - symmetry in Hlow. apply lower_nil in Hlow. discriminate.
  - apply lower_nil in Hlow. discriminate.
  - rewrite Hlow. reflexivity.
Qed.

Lemma bank_filter_case_insensitive_witness :
  let m := Message 3 (Some (lit "Chase 4111111111111111 12/25 123")) None in
  let E := sample_env (Yield m Done) in
  lower (lit "CHASE") = lower (lit "chase") /\
  lines_of (fst (scrape_new_messages sample_sha E
     (Request (lit "@chan") 10 None (Some (lit "CHASE"))) empty_db)) =
    [lit "4111111111111111|12|25|123"] /\
  scrape_new_messages sample_sha E
    (Request (lit "@chan") 10 None (Some (lit "CHASE"))) empty_db =
  scrape_new_messages sample_sha E
    (Request (lit "@chan") 10 None (Some (lit "chase"))) empty_db.
Proof.
  intros m E. split; [reflexivity|]. split; [vm_compute; reflexivity|].
  apply bank_filter_case_insensitive. reflexivity.
Defined.

(** X9. The BIN filter reads the first six characters of [start_number]
    and no more: two requests that differ only in [start_number], the two
    with the same first six characters, give the same scan. *)
Theorem bin_filter_first_six (sha : str -> str) E u n sn sn' bank w :
  firstn 6 sn = firstn 6 sn' ->
  scrape_new_messages sha E (Request u n (Some sn) bank) w =
  scrape_new_messages sha E (Request u n (Some sn') bank) w.
Proof.
  intros Hsix. apply scrape_ext; try reflexivity.
  intros c. unfold bin_rejects. cbn [start_number].
  destruct sn as [|a s], sn' as [|a' s']; try reflexivity;
    try discriminate Hsix.
  rewrite Hsix. reflexivity.
Qed.

Lemma bin_filter_first_six_witness :
  let E := sample_env (Yield msg9 (Yield msg7 Done)) in
  firstn 6 (lit "5500001234") = firstn 6 (lit "550000") /\
  scrape_new_messages sample_sha E
    (Request (lit "@chan") 10 (Some (lit "5500001234")) None) empty_db =
  scrape_new_messages sample_sha E
    (Request (lit "@chan") 10 (Some (lit "550000")) None) empty_db.
Proof.
  intros E. split; [reflexivity|].
  apply bin_filter_first_six. reflexivity.
Defined.

(** ** The shape of the lines *)

Lemma digits_skipn n (s : str) : digits s -> digits (skipn n s).
Proof.
  unfold digits. revert s; induction n as [|n IH]; intros s H; [exact H|].
  destruct s as [|c s]; [exact H|]. inversion H; subst. simpl. auto.
Qed.

Lemma last2_shape (s : str) :
  digits s -> 2 <= length s -> digits (last2 s) /\ length (last2 s) = 2.
Proof.
  intros Hd Hl. unfold last2. split; [apply digits_skipn, Hd|].
  rewrite length_skipn. lia.
Qed.

Lemma parse_match_shape m c mo y cvv :
  Re.matches pattern m ->
  parse_match m = Some (c, mo, y, cvv) ->
  record_line (formatted c mo y cvv).
Proof.
  intros Hm Hp.
  destruct (Runs.pattern_coarse Hm)
    as (d16 & s1 & d2 & s2 & dy & s3 & dc & -> & Hc).
  pose proof (Runs.coarse_runs Hc) as Hruns.
  unfold parse_match in Hp. rewrite Hruns in Hp.
  destruct Hc as (D1 & L1 & _ & D2 & L2 & _ & D3 & L3 & _ & D4 & L4).
  destruct s1 as [|a1 s1], s2 as [|a2 s2], s3 as [|a3 s3];
    simpl in Hp; try discriminate Hp.
  injection Hp as <- <- <- <-.
  destruct (last2_shape D3 (proj1 L3)) as [Hy1 Hy2].
  exists d16, d2, (last2 dy), dc. repeat split; auto; lia.
Qed.

Section LineFacts.

Variable sha : str -> str.
Variable E : environ.
Variable rq : request.

Lemma on_match_lines title m l w :
  Re.matches pattern m ->
  Forall record_line (messages_found l) ->
  Forall record_line (messages_found (fst (on_match sha E rq title m l w))).
Proof.
  intros Hm Hl. unfold on_match.
  destruct (parse_match m) as [[[[c mo] y] cvv]|] eqn:Hp; [|exact Hl].
  destruct (on_record_cases sha E rq title c mo y cvv l w)
    as [(-> & _) | (_ & _ & -> & _)]; [exact Hl|].
  simpl. apply Forall_app. split; [exact Hl|].
  constructor; [|constructor]. eapply parse_match_shape; eauto.
Qed.

Lemma on_matches_lines title ms : forall l w,
  Forall (Re.matches pattern) ms ->
  Forall record_line (messages_found l) ->
  Forall record_line
    (messages_found (fst (on_matches sha E rq title ms l w))).
Proof.
  induction ms as [|m ms IH]; intros l w Hms Hl; simpl; [exact Hl|].
  inversion Hms as [|x xs Hm Hrest]; subst.
  unfold bind. pose proof (on_match_lines title l w Hm Hl) as H1.
  destruct (on_match sha E rq title m l w) as [l1 w1]. simpl in H1.
  apply IH; assumption.
Qed.

Lemma on_message_lines title last m l w :
  Forall record_line (messages_found l) ->
  Forall record_line
    (messages_found (fst (on_message sha E rq title last m l w))).
Proof.
  intros Hl. unfold on_message.
  assert (Ht : Forall record_line (messages_found (track m l)))
    by (rewrite (proj1 (track_rest m l)); exact Hl).
  destruct (already_scraped last m); [exact Ht|].
  destruct (text_of m) as [[|c t]|]; try exact Ht.
  destruct (bank_rejects rq (c :: t)); [exact Ht|].
  apply on_matches_lines; [|exact Ht].
  apply Forall_forall. intros x Hx.
  apply (ReFacts.findall_sound _ _ _ Hx).
Qed.

Lemma messages_loop_lines title last f : forall l w,
  Forall record_line (messages_found l) ->
  Forall record_line
    (messages_found (fst (messages_loop sha E rq title last f l w))).
Proof.
  induction f as [| |m f IH]; intros l w Hl; simpl; try exact Hl.
  destruct (limit rq <=? count l)%Z; [exact Hl|].
  unfold bind. pose proof (on_message_lines title last m l w Hl) as H1.
  destruct (on_message sha E rq title last m l w) as [l1 w1]. simpl in H1.
  apply IH. exact H1.
Qed.

Lemma scrape_lines w :
  Forall record_line (lines_of (fst (scrape_new_messages sha E rq w))).
Proof.
  destruct (get_chat E (channel_username rq)) as [ch|] eqn:Hch.
  - rewrite (scrape_resolved sha E rq w Hch). cbv zeta.
    unfold lines_of. cbn [fst]. apply messages_loop_lines. constructor.
  - rewrite (scrape_unresolved sha E rq w Hch). constructor.
Qed.

End LineFacts.

Lemma record_line_chars line :
  record_line line ->
  (length line = 26 \/ length line = 27) /\
  Forall (fun c => is_digit c = true \/ c = "|"%char) line.
Proof.
  intros (c & mo & y & cvv & -> & D1 & L1 & D2 & L2 & D3 & L3 & D4 & L4).
  unfold formatted, bar. split.
  - rewrite !length_app. simpl. lia.
  - assert (Hd : forall s, digits s ->
               Forall (fun c => is_digit c = true \/ c = "|"%char) s)
      by (intros s; apply Forall_impl; auto).
    repeat (apply Forall_app; split); auto; repeat constructor; auto.
Qed.

(** ** What the scan reads back from the database *)

Lemma hash_in_keys h (t : list seen_row) :
  hash_in h t = existsb (fun k => str_eqb k h) (map card_hash t).
Proof.
  unfold hash_in. induction t as [|r t IH]; simpl; [|rewrite IH]; reflexivity.
Qed.

Lemma stored_keys cid w :
  stored_position cid w =
  option_map snd
    (find (fun p => fst p =? cid)%Z
          (map (fun r => (channel_id r, last_msg_id r)) (last_scraped w))).
Proof.
  unfold stored_position. induction (last_scraped w) as [|r t IH]; simpl;
    [reflexivity|].
  destruct (channel_id r =? cid)%Z; [reflexivity | exact IH].
Qed.

Lemma same_keys_hash_in w v h :
  same_keys w v -> hash_in h (seen_cards w) = hash_in h (seen_cards v).
Proof.
  unfold same_keys, keys_of. intros [= Hs _].
  rewrite !hash_in_keys, Hs. reflexivity.
Qed.

Lemma same_keys_stored w v cid :
  same_keys w v -> stored_position cid w = stored_position cid v.
Proof.
  unfold same_keys, keys_of. intros [= _ Hl].
  rewrite !stored_keys, Hl. reflexivity.
Qed.

Lemma agree_ret (A : Type) (a : A) : agree (ret a) (ret a).
Proof. intros w v H. split; [reflexivity | exact H]. Qed.

Lemma agree_bind (A B : Type) (c c' : M A) (k k' : A -> M B) :
  agree c c' -> (forall a, agree (k a) (k' a)) ->
  agree (bind c k) (bind c' k').
Proof.
  intros Hc Hk w v H. unfold bind.
  destruct (Hc w v H) as [Hv Hw].
  destruct (c w) as [a w1], (c' v) as [a' v1]. simpl in Hv, Hw. subst a'.
  apply Hk, Hw.
Qed.

Section AgreeFacts.

Variable sha : str -> str.
Variables E E' : environ.
Variable rq : request.

Hypothesis same_chats : forall u, get_chat E u = get_chat E' u.
Hypothesis same_feeds :
  forall c n, search_messages E c n = search_messages E' c n.

Lemma is_card_seen_agree c src :
  agree (is_card_seen sha c src) (is_card_seen sha c src).
Proof.
  intros w v H. rewrite !is_card_seen_run. simpl.
  rewrite (same_keys_hash_in (sha c) H). split; [reflexivity | exact H].
Qed.

Lemma mark_card_seen_agree h src :
  agree (mark_card_seen E h src) (mark_card_seen E' h src).
Proof.
  intros w v H. rewrite !mark_card_seen_run. cbn [fst snd].
  split; [reflexivity|].
  rewrite (same_keys_hash_in h H).
  unfold same_keys, keys_of in *. injection H as Hs Hl.
  destruct (hash_in h (seen_cards v)); simpl; rewrite ?map_app, Hs, Hl;
    reflexivity.
Qed.

Lemma update_last_msg_id_agree cid pos :
  agree (update_last_msg_id E cid pos) (update_last_msg_id E' cid pos).
Proof.
  intros w v H. rewrite !update_last_msg_id_run. cbn [fst snd].
  split; [reflexivity|].
  unfold same_keys, keys_of in *. injection H as Hs Hl. simpl.
  rewrite Hs, !map_app. simpl. f_equal. f_equal.
  assert (Hf : forall t : list last_row,
            map (fun r => (channel_id r, last_msg_id r))
                (filter (fun r => negb (channel_id r =? cid)%Z) t) =
            filter (fun p => negb (fst p =? cid)%Z)
                   (map (fun r => (channel_id r, last_msg_id r)) t)).
  { induction t as [|r t IH]; simpl; [reflexivity|].
    destruct (negb (channel_id r =? cid)%Z); simpl; rewrite IH; reflexivity. }
  rewrite !Hf, Hl. reflexivity.
Qed.

Lemma get_last_msg_id_agree cid :
  agree (get_last_msg_id cid) (get_last_msg_id cid).
Proof.
  intros w v H. rewrite !get_last_msg_id_run. simpl.
  rewrite (same_keys_stored cid H). split; [reflexivity | exact H].
Qed.

Lemma on_record_agree title rec l :
  agree (on_record sha E rq title rec l) (on_record sha E' rq title rec l).
Proof.
  destruct rec as [[[c mo] y] cvv]. unfold on_record.
  destruct (bin_rejects rq c); [apply agree_ret|].
  apply agree_bind; [apply is_card_seen_agree|].
  intros [seen h]. destruct (negb seen); [|apply agree_ret].
  apply agree_bind; [apply mark_card_seen_agree|].
  intros _. apply agree_ret.
Qed.

Lemma on_matches_agree title ms : forall l,
  agree (on_matches sha E rq title ms l) (on_matches sha E' rq title ms l).
Proof.
  induction ms as [|m ms IH]; intros l; simpl; [apply agree_ret|].
  apply agree_bind; [|exact IH].
  unfold on_match. destruct (parse_match m);
    [apply on_record_agree | apply agree_ret].
Qed.

Lemma on_message_agree title last m l :
  agree (on_message sha E rq title last m l)
        (on_message sha E' rq title last m l).
Proof.
  unfold on_message.
  destruct (already_scraped last m); [apply agree_ret|].
  destruct (text_of m) as [[|c t]|]; try apply agree_ret.
  destruct (bank_rejects rq (c :: t));
    [apply agree_ret | apply on_matches_agree].
Qed.

Lemma messages_loop_agree title last f : forall l,
  agree (messages_loop sha E rq title last f l)
        (messages_loop sha E' rq title last f l).
Proof.
  induction f as [| |m f IH]; intros l; simpl; try apply agree_ret.
  destruct (limit rq <=? count l)%Z; [apply agree_ret|].
  apply agree_bind; [apply on_message_agree | exact IH].
Qed.

Lemma scrape_agree :
  agree (scrape_new_messages sha E rq) (scrape_new_messages sha E' rq).
Proof.
  unfold scrape_new_messages. rewrite <- same_chats.
  destruct (get_chat E (channel_username rq)) as [ch|]; [|apply agree_ret].
  apply agree_bind; [apply get_last_msg_id_agree|].
  intros last. rewrite <- same_feeds.
  apply agree_bind; [apply messages_loop_agree|].
  intros l. apply agree_bind; [|intros _; apply agree_ret].
  destruct (truthy_int (newest_msg_id_in_this_run l) &&
            negb (opt_eqb (newest_msg_id_in_this_run l) last));
    [|apply agree_ret].
  destruct (newest_msg_id_in_this_run l);
    [apply update_last_msg_id_agree | apply agree_ret].
Qed.

End AgreeFacts.

(** X11. The scan never reads back a source label or a timestamp, and
    the wall clock decides nothing: two scans of the same request, of
    sources that resolve and deliver alike, on two databases that hold
    the same hashes and the same positions, return the same lines, label
    and position, and leave databases that again hold the same hashes and
    positions, whatever the clocks read and whatever labels and
    timestamps the rows carry. *)
Theorem scan_reads_keys_only (sha : str -> str) E E' rq w v :
  (forall u, get_chat E u = get_chat E' u) ->
  (forall c n, search_messages E c n = search_messages E' c n) ->
  same_keys w v ->
  fst (scrape_new_messages sha E rq w) =
  fst (scrape_new_messages sha E' rq v) /\
  same_keys (snd (scrape_new_messages sha E rq w))
            (snd (scrape_new_messages sha E' rq v)).
Proof. intros Hc Hf H. apply scrape_agree; assumption. Qed.

Lemma scan_reads_keys_only_witness :
  let E := sample_env (Yield msg9 Done) in
  let E' := Environ (get_chat E) (search_messages E)
                    (fun n => (1700000000 + Z.of_nat n)%Z) in
  let w := World [SeenRow (sample_sha (lit "4111111111111111"))
                          (Some (lit "chan")) 5]
                 [LastRow 100 7 6] 2 [] in
  let v := World [SeenRow (sample_sha (lit "4111111111111111")) None 99]
                 [LastRow 100 7 0] 0 [SelectLast 1] in
  same_keys w v /\
  fst (scrape_new_messages sample_sha E sample_rq w) =
  fst (scrape_new_messages sample_sha E' sample_rq v).
Proof.
  intros E E' w v. split; [reflexivity|].
  apply scan_reads_keys_only; [reflexivity.. ].
Defined.

(** X12. [clear_db_cmd] empties both tables: afterwards no card is seen
    and no channel has a checkpoint, and the next scan returns what it
    would return on a new database. *)
Theorem clear_db_forgets (sha : str -> str) E rq w :
  let w0 := snd (clear_db_cmd w) in
  (forall c src, fst (fst (is_card_seen sha c src w0)) = false) /\
  (forall cid, fst (get_last_msg_id cid w0) = None) /\
  fst (scrape_new_messages sha E rq w0) =
  fst (scrape_new_messages sha E rq empty_db).
Proof.
  intros w0. repeat split.
  apply (scrape_agree sha E E rq (fun _ => eq_refl) (fun _ _ => eq_refl)).
  reflexivity.
Qed.

(** ** The statistics *)

Lemma nodup_length_le (A : Type) (dec : forall x y : A, {x = y} + {x <> y})
      (l : list A) : length (nodup dec l) <= length l.
Proof.
  induction l as [|x l IH]; simpl; [lia|].
  destruct (in_dec dec x l); simpl; lia.
Qed.

Lemma labels_length_le rows : length (labels rows) <= length rows.
Proof.
  induction rows as [|r rows IH]; simpl; [lia|].
  destruct (source r); simpl; lia.
Qed.

(** X13. What [stats_cmd] reports after any sequence of scans: the total
    is the total before plus the number of lines the scans emitted, and
    the number of sources is at most the total. *)
Theorem stats_after_scans (sha : str -> str) (cs : list call) (w : world) :
  let out := run sha cs w in
  exists total sources,
    stats_cmd (snd out) = ReplyStats total sources /\
    total = length (seen_cards w) + length (emitted (fst out)) /\
    sources <= total.
Proof.
  intros out. unfold stats_cmd.
  destruct (emits_rows (run_emits sha cs w)) as (rows & Hs & _ & Hlen).
  fold out in Hs, Hlen.
  eexists _, _. split; [reflexivity|]. split.
  - rewrite Hs, length_app, Hlen. reflexivity.
  - etransitivity; [apply nodup_length_le | apply labels_length_le].
Qed.

(** ** The scan command *)

Section CommandFacts.

Variable cfg : config.
Variable sha : str -> str.
Variable E : environ.
Variable h : host.

(** The command once its arguments have passed. *)
Lemma adv_scr_cmd_accepted message text w n :
  cmd_text message = Some text ->
  let args := tl (split text) in
  2 <= length args ->
  int_of_str (nth 1 args []) = Some n ->
  (n <= max_lim cfg (from_user message))%Z ->
  let rq := request_of args n in
  let r := scrape_new_messages sha E rq w in
  adv_scr_cmd cfg sha E h message w =
  ((ReplyScanning ::
      fst (send_results h (lines_of (fst r)) (snd (fst (fst r)))
             (position_of (fst r)) (bin_filter_of (start_number rq))
             (bank_name rq)),
    snd (send_results h (lines_of (fst r)) (snd (fst (fst r)))
           (position_of (fst r)) (bin_filter_of (start_number rq))
           (bank_name rq))),
   snd r).
Proof.
  intros Htext args Hlen Hint Hmax rq r. unfold adv_scr_cmd.
  rewrite Htext. fold args.
  replace (length args <? 2) with false by (symmetry; apply Nat.ltb_ge; lia).
  rewrite Hint.
  replace (max_lim cfg (from_user message) <? n)%Z with false
    by (symmetry; apply Z.ltb_ge; lia).
  fold rq. unfold bind. fold r.
  destruct r as [[[lines name] last] w1]. unfold lines_of, position_of.
  cbn [fst snd].
  destruct (send_results h lines name last
              (bin_filter_of (start_number rq)) (bank_name rq)).
  reflexivity.
Qed.

End CommandFacts.

(** X14. A command that came as a caption has no [message.text]:
    [adv_scr_cmd] raises [AttributeError] at its first line, with no
    reply and no statement executed. On a command that came as text it
    starts a scan only when the text has at least two arguments and a
    limit that [int] accepts and that is not above the caller's ceiling;
    otherwise it sends one reply and executes no statement. The request
    it scans with never has both filters, and its BIN filter, when there
    is one, is a non-empty string of digits. *)
Theorem adv_scr_cmd_validates cfg (sha : str -> str) E h message w :
  let ceiling := max_lim cfg (from_user message) in
  let out := adv_scr_cmd cfg sha E h message w in
  (cmd_text message = None /\ out = (([], AttributeError), w))
  \/
  (exists text, cmd_text message = Some text /\
   let args := tl (split text) in
   ((snd out = w /\
     ((length args < 2 /\ fst out = ([ReplyFormat], Returned)) \/
      (2 <= length args /\ int_of_str (nth 1 args []) = None /\
       fst out = ([ReplyInvalidLimit], Returned)) \/
      (exists n, 2 <= length args /\
                 int_of_str (nth 1 args []) = Some n /\ (ceiling < n)%Z /\
                 fst out = ([ReplyLimitExceeded ceiling], Returned))))
    \/
    (exists n,
       2 <= length args /\
       int_of_str (nth 1 args []) = Some n /\ (n <= ceiling)%Z /\
       let rq := request_of args n in
       limit rq = n /\ channel_username rq = nth 0 args [] /\
       (start_number rq = None \/ bank_name rq = None) /\
       (forall sn, start_number rq = Some sn ->
          isdigit sn = true /\ sn <> [] /\ sn = nth 2 args []) /\
       snd out = snd (scrape_new_messages sha E rq w) /\
       hd_error (fst (fst out)) = Some ReplyScanning))).
Proof.
  intros ceiling out.
  destruct (cmd_text message) as [text|] eqn:Htext.
  2:{ left. split; [reflexivity|]. unfold out, adv_scr_cmd.
      rewrite Htext. reflexivity. }
  right. exists text. split; [reflexivity|]. intros args.
  destruct (length args <? 2) eqn:Hlen.
  { left. unfold out, adv_scr_cmd. rewrite Htext. fold args. rewrite Hlen.
    apply Nat.ltb_lt in Hlen. split; [reflexivity|]. left. auto. }
  apply Nat.ltb_ge in Hlen.
  destruct (int_of_str (nth 1 args [])) as [n|] eqn:Hint.
  2:{ left. unfold out, adv_scr_cmd. rewrite Htext. fold args.
      replace (length args <? 2) with false
        by (symmetry; apply Nat.ltb_ge; lia).
      rewrite Hint. split; [reflexivity|]. right. left. auto. }
  destruct (ceiling <? n)%Z eqn:Hmax.
  { left. unfold out, adv_scr_cmd. rewrite Htext. fold args.
    replace (length args <? 2) with false
      by (symmetry; apply Nat.ltb_ge; lia).
    rewrite Hint. fold ceiling. rewrite Hmax.
    apply Z.ltb_lt in Hmax. split; [reflexivity|]. right. right.
    exists n. auto. }
  apply Z.ltb_ge in Hmax. right. exists n.
  split; [exact Hlen|]. split; [reflexivity|]. split; [exact Hmax|].
  intros rq. split; [reflexivity|]. split; [reflexivity|].
  split; [|split; [|split]].
  - unfold rq, request_of. simpl.
    destruct ((2 <? length args) && isdigit (nth 2 args [])) eqn:Hd;
      [|left; reflexivity].
    right. apply andb_true_iff in Hd. destruct Hd as [-> ->]. reflexivity.
  - intros sn. unfold rq, request_of. simpl.
    destruct ((2 <? length args) && isdigit (nth 2 args [])) eqn:Hd;
      [|discriminate].
    intros [= <-]. apply andb_true_iff in Hd. destruct Hd as [_ Hd].
    split; [exact Hd|]. split; [|reflexivity].
    destruct (nth 2 args []); [discriminate Hd | discriminate].
  - unfold out.
    rewrite (adv_scr_cmd_accepted cfg sha E h message w Htext Hlen Hint Hmax).
    reflexivity.
  - unfold out.
    rewrite (adv_scr_cmd_accepted cfg sha E h message w Htext Hlen Hint Hmax).
    reflexivity.
Qed.

Lemma adv_scr_cmd_validates_witness :
  let cfg := Config 500 100 [42%Z] in
  let E := sample_env (Yield msg7 Done) in
  let run_cmd (t : option string) u :=
    adv_scr_cmd cfg sample_sha E sample_host
                (Command (option_map lit t) u) empty_db in
  run_cmd None None = (([], AttributeError), empty_db) /\
  run_cmd (Some "/advscr @chan"%string) None =
    (([ReplyFormat], Returned), empty_db) /\
  run_cmd (Some "/advscr @chan ten"%string) None =
    (([ReplyInvalidLimit], Returned), empty_db) /\
  run_cmd (Some "/advscr @chan 101"%string) (Some 7%Z) =
    (([ReplyLimitExceeded 100], Returned), empty_db) /\
  hd_error (fst (fst (run_cmd (Some "/advscr @chan 101"%string)
                              (Some 42%Z)))) = Some ReplyScanning /\
  (snd (run_cmd (Some "/advscr @chan 101"%string) (Some 42%Z)) = empty_db ->
   False).
Proof.
  intros cfg E run_cmd.
  split; [vm_compute; reflexivity|].
  split; [vm_compute; reflexivity|]. split; [vm_compute; reflexivity|].
  split; [vm_compute; reflexivity|]. split; [vm_compute; reflexivity|].
  intros Hsame.
  destruct (adv_scr_cmd_validates cfg sample_sha E sample_host
              (Command (Some (lit "/advscr @chan 101")) (Some 42%Z))
              empty_db)
    as [[H _] | (text & Htext & [[_ [[H _]|[(_ & H & _)|(n & _ & H & Hn & _)]]]
                                | _])].
  - discriminate H.
  - injection Htext as <-. vm_compute in H. lia.
  - injection Htext as <-. vm_compute in H. discriminate.
  - injection Htext as <-. vm_compute in H, Hn. injection H as <-.
    discriminate Hn.
  - vm_compute in Hsame. discriminate.
Defined.

Lemma scrape_nothing (sha : str -> str) E rq w :
  get_chat E (channel_username rq) = None \/ (limit rq <= 0)%Z ->
  lines_of (fst (scrape_new_messages sha E rq w)) = [] /\
  same_tables w (snd (scrape_new_messages sha E rq w)).
Proof.
  intros H.
  destruct (get_chat E (channel_username rq)) as [ch|] eqn:Hch.
  2:{ rewrite (scrape_unresolved sha E rq w Hch). repeat split. }
  destruct H as [H|Hlim]; [discriminate|].
  rewrite (scrape_resolved sha E rq w Hch). cbv zeta.
  destruct (messages_loop_limit sha E rq (chat_title ch)
              (stored_position (chat_id ch) w)
              (search_messages E (chat_id ch) (limit rq * 5))
              (Locals [] 0 (stored_position (chat_id ch) w))
              (logged (SelectLast (chat_id ch)) w) Hlim) as [-> _].
  cbn [fst snd newest_msg_id_in_this_run messages_found lines_of].
  destruct (stored_position (chat_id ch) w) as [p|]; [|repeat split].
  replace (opt_eqb (Some p) (Some p)) with true
    by (symmetry; apply opt_eqb_eq; reflexivity).
  rewrite andb_false_r. repeat split.
Qed.

(** X15. A command that passes validation and names a channel that does
    not resolve, or gives a limit of zero or less, is answered like a scan
    that found nothing new: the scanning notice, then the notice edited to
    the no-new-cards text. No file is written and neither table
    changes. *)
Theorem adv_scr_cmd_no_cards cfg (sha : str -> str) E h message text w n :
  cmd_text message = Some text ->
  let args := tl (split text) in
  2 <= length args ->
  int_of_str (nth 1 args []) = Some n ->
  (n <= max_lim cfg (from_user message))%Z ->
  get_chat E (nth 0 args []) = None \/ (n <= 0)%Z ->
  let out := adv_scr_cmd cfg sha E h message w in
  fst out = ([ReplyScanning; EditNoNewCards], Returned) /\
  same_tables w (snd out).
Proof.
  intros Htext args Hlen Hint Hmax Hwhy out. unfold out.
  rewrite (adv_scr_cmd_accepted cfg sha E h message w Htext Hlen Hint Hmax).
  fold args.
  destruct (scrape_nothing sha E (request_of args n) w Hwhy) as [Hl Ht].
  cbn [fst snd]. rewrite Hl. split; [reflexivity | exact Ht].
Qed.

Lemma adv_scr_cmd_no_cards_witness :
  let cfg := Config 500 100 [] in
  let E := sample_env (Yield msg7 Done) in
  int_of_str (lit "-3") = Some (-3)%Z /\
  adv_scr_cmd cfg sample_sha E sample_host
    (Command (Some (lit "/advscr @chan -3")) None) empty_db =
  (([ReplyScanning; EditNoNewCards], Returned),
   logged (SelectLast 100) empty_db) /\
  fst (adv_scr_cmd cfg sample_sha nowhere sample_host
         (Command (Some (lit "/advscr @gone 10")) None) empty_db) =
  ([ReplyScanning; EditNoNewCards], Returned).
Proof.
  intros cfg E. split; [vm_compute; reflexivity|].
  split; [vm_compute; reflexivity|].
  assert (Hlen : 2 <= length (tl (split (lit "/advscr @gone 10"))))
    by (vm_compute; lia).
  assert (Hint : int_of_str (nth 1 (tl (split (lit "/advscr @gone 10"))) [])
                 = Some 10%Z) by (vm_compute; reflexivity).
  assert (Hmax : (10 <= max_lim cfg None)%Z) by (vm_compute; discriminate).
  exact (proj1 (adv_scr_cmd_no_cards cfg sample_sha nowhere sample_host
                  (Command (Some (lit "/advscr @gone 10")) None) empty_db
                  eq_refl Hlen Hint Hmax (or_introl eq_refl))).
Defined.

(** ** The file *)

Lemma split_lines_from_plain cur s :
  no_newline s -> split_lines_from cur s = [cur ++ s].
Proof.
  intros H. revert cur. induction H as [|c s Hc _ IH]; intros cur; simpl.
  - rewrite app_nil_r. reflexivity.
  - rewrite Hc, IH, <- app_assoc. reflexivity.
Qed.

Lemma split_lines_from_line cur p t :
  no_newline p ->
  split_lines_from cur (p ++ newline ++ t) =
  (cur ++ p) :: split_lines_from [] t.
Proof.
  intros H. revert cur. induction H as [|c p Hc _ IH]; intros cur; simpl.
  - rewrite app_nil_r. reflexivity.
  - rewrite Hc, IH, <- app_assoc. reflexivity.
Qed.

(** Joining lines that hold no newline and splitting again gives the
    lines back. *)
Lemma split_join_lines ls :
  ls <> [] -> Forall no_newline ls ->
  split_lines (join newline ls) = ls.
Proof.
  unfold split_lines. intros Hne H.
  induction H as [|p ls Hp Hls IH]; [congruence|].
  destruct ls as [|q ls].
  - simpl. apply (split_lines_from_plain [] Hp).
  - change (join newline (p :: q :: ls))
      with (p ++ newline ++ join newline (q :: ls)).
    rewrite split_lines_from_line by exact Hp. simpl. f_equal.
    apply IH. discriminate.
Qed.

Lemma record_line_no_newline line : record_line line -> no_newline line.
Proof.
  intros H. apply record_line_chars in H. destruct H as [_ H].
  unfold no_newline. eapply Forall_impl; [|exact H].
  intros c [Hc | ->]; [|reflexivity].
  destruct (Ascii.eqb c (ascii_of_nat 10)) eqn:Hn; [|reflexivity].
  apply Ascii.eqb_eq in Hn. subst c. discriminate Hc.
Qed.

Lemma startswith_app s t p :
  startswith s p = true -> startswith (s ++ t) p = true.
Proof.
  rewrite !startswith_prefix. intros [u ->]. exists (u ++ t).
  rewrite app_assoc. reflexivity.
Qed.

(** X16. When a command's scan returns lines from a source with a title,
    the file name is made of the number of lines, the title with its
    spaces turned to underscores, and the time stamp. If the file system
    lets that file be made, the command writes it, deletes the notice,
    sends the file, and removes it, in that order; the body of the file
    taken apart at its newlines is exactly the lines the scan returned,
    and the count sent is their number. If the file cannot be made (a
    title with a slash in it, a name too long) the [open] raises: nothing
    is written or sent and the notice stays. Either way the scan has run,
    each line is 16 digits, 2, 2 and 3 or 4 with bars between, and with a
    BIN filter every line starts with the filter shown. *)
Theorem adv_scr_cmd_document cfg (sha : str -> str) E h message text w n
        name :
  cmd_text message = Some text ->
  let args := tl (split text) in
  2 <= length args ->
  int_of_str (nth 1 args []) = Some n ->
  (n <= max_lim cfg (from_user message))%Z ->
  let rq := request_of args n in
  let r := fst (scrape_new_messages sha E rq w) in
  lines_of r <> [] ->
  snd (fst r) = Some name ->
  let out := adv_scr_cmd cfg sha E h message w in
  let file := lit "NEW_x" ++ str_of_nat (length (lines_of r)) ++ lit "_" ++
              underscored name ++ lit "_" ++ stamp h ++ lit ".txt" in
  (creatable h file = true ->
   exists body,
     fst out =
       ([ReplyScanning;
         WriteFile file body;
         DeleteMessage;
         SendDocument file body name (length (lines_of r)) (position_of r)
                      (bin_filter_of (start_number rq)) (bank_name rq);
         RemoveFile file], Returned) /\
     split_lines body = lines_of r) /\
  (creatable h file = false -> fst out = ([ReplyScanning], OpenError)) /\
  snd out = snd (scrape_new_messages sha E rq w) /\
  Forall record_line (lines_of r) /\
  (forall bf, bin_filter_of (start_number rq) = Some bf ->
     Forall (fun line => startswith line bf = true) (lines_of r)).
Proof.
  intros Htext args Hlen Hint Hmax rq r Hne Hname out file.
  assert (Hout : out =
    ((ReplyScanning ::
        fst (send_results h (lines_of r) (Some name) (position_of r)
               (bin_filter_of (start_number rq)) (bank_name rq)),
      snd (send_results h (lines_of r) (Some name) (position_of r)
             (bin_filter_of (start_number rq)) (bank_name rq))),
     snd (scrape_new_messages sha E rq w))).
  { unfold out.
    rewrite (adv_scr_cmd_accepted cfg sha E h message w Htext Hlen Hint Hmax).
    fold args. fold rq. fold r. rewrite Hname. reflexivity. }
  pose proof (scrape_lines sha E rq w) as Hshape. fold r in Hshape.
  rewrite Hout. cbn [fst snd]. unfold send_results. fold file.
  destruct (lines_of r) as [|x xs] eqn:Hl; [congruence|].
  fold file. split; [|split; [|split; [reflexivity | split]]].
  - intros Hc. rewrite Hc. eexists. split; [reflexivity|].
    apply split_join_lines; [discriminate|].
    eapply Forall_impl; [|exact Hshape]. apply record_line_no_newline.
  - intros Hc. rewrite Hc. reflexivity.
  - exact Hshape.
  - intros bf Hbf. apply Forall_forall. intros line Hin.
    rewrite <- Hl in Hin.
    destruct (proj2 (scrape_emits sha E rq w) line Hin)
      as (c & mo & y & cvv & -> & _ & Hb).
    unfold bin_filter_of in Hbf. unfold bin_rejects in Hb.
    destruct (start_number rq) as [[|a sn]|]; try discriminate Hbf.
    injection Hbf as <-. apply negb_false_iff in Hb.
    unfold formatted. apply startswith_app. exact Hb.
Qed.

Lemma adv_scr_cmd_document_witness :
  let cfg := Config 500 100 [] in
  let E := sample_env (Yield msg9 (Yield msg7 Done)) in
  let message := Command (Some (lit "/advscr @chan 10 550000")) None in
  let out := adv_scr_cmd cfg sample_sha E sample_host message empty_db in
  let slashed :=
    Environ (fun _ => Some (Chat 100 (Some (lit "a/b"))))
            (fun _ _ => Yield msg9 Done) (fun n => Z.of_nat n) in
  fst out =
    ([ReplyScanning;
      WriteFile (lit "NEW_x1_chan_20240101_000000.txt")
                (lit "5500000000000004|03|27|1234");
      DeleteMessage;
      SendDocument (lit "NEW_x1_chan_20240101_000000.txt")
                   (lit "5500000000000004|03|27|1234") (lit "chan") 1
                   (Some 9%Z) (Some (lit "550000")) None;
      RemoveFile (lit "NEW_x1_chan_20240101_000000.txt")], Returned) /\
  (exists body, In (WriteFile (lit "NEW_x1_chan_20240101_000000.txt") body)
                   (fst (fst out)) /\
     split_lines body = [lit "5500000000000004|03|27|1234"]) /\
  fst (adv_scr_cmd cfg sample_sha slashed sample_host message empty_db) =
    ([ReplyScanning], OpenError).
Proof.
  intros cfg E message out slashed.
  split; [vm_compute; reflexivity|].
  assert (Hlen : 2 <= length (tl (split (lit "/advscr @chan 10 550000"))))
    by (vm_compute; lia).
  assert (Hint : int_of_str
                   (nth 1 (tl (split (lit "/advscr @chan 10 550000"))) [])
                 = Some 10%Z) by (vm_compute; reflexivity).
  assert (Hmax : (10 <= max_lim cfg (from_user message))%Z)
    by (vm_compute; discriminate).
  split.
  - assert (Hne : lines_of (fst (scrape_new_messages sample_sha E
                   (request_of (tl (split (lit "/advscr @chan 10 550000")))
                      10) empty_db)) <> [])
      by (vm_compute; discriminate).
    assert (Hname : snd (fst (fst (scrape_new_messages sample_sha E
                   (request_of (tl (split (lit "/advscr @chan 10 550000")))
                      10) empty_db))) = Some (lit "chan"))
      by (vm_compute; reflexivity).
    destruct (adv_scr_cmd_document cfg sample_sha E sample_host message
                empty_db eq_refl Hlen Hint Hmax Hne Hname)
      as (Hok & _).
    assert (Hc : creatable sample_host
                   (lit "NEW_x1_chan_20240101_000000.txt") = true)
      by (vm_compute; reflexivity).
    destruct (Hok Hc) as (body & Hev & Hsplit).
    exists body. split.
    + fold out in Hev. rewrite Hev. right. left. reflexivity.
    + rewrite Hsplit. vm_compute. reflexivity.
  - assert (Hne : lines_of (fst (scrape_new_messages sample_sha slashed
                   (request_of (tl (split (lit "/advscr @chan 10 550000")))
                      10) empty_db)) <> [])
      by (vm_compute; discriminate).
    assert (Hname : snd (fst (fst (scrape_new_messages sample_sha slashed
                   (request_of (tl (split (lit "/advscr @chan 10 550000")))
                      10) empty_db))) = Some (lit "a/b"))
      by (vm_compute; reflexivity).
    destruct (adv_scr_cmd_document cfg sample_sha slashed sample_host
                message empty_db eq_refl Hlen Hint Hmax Hne Hname)
      as (_ & Hfail & _).
    apply Hfail. vm_compute. reflexivity.
Defined.

(** X17. When a command's scan returns lines from a source that has no
    title (a private chat), building the file name raises
    [AttributeError] before anything is written or sent: the user gets
    the scanning notice and nothing else. The scan has run all the same:
    its checkpoint is stored and the hashes of the lines are in
    [seen_cards], so no later scan returns them. *)
Theorem adv_scr_cmd_untitled_chat cfg (sha : str -> str) E h message text
        w n :
  cmd_text message = Some text ->
  let args := tl (split text) in
  2 <= length args ->
  int_of_str (nth 1 args []) = Some n ->
  (n <= max_lim cfg (from_user message))%Z ->
  let rq := request_of args n in
  let r := scrape_new_messages sha E rq w in
  lines_of (fst r) <> [] ->
  snd (fst (fst r)) = None ->
  let out := adv_scr_cmd cfg sha E h message w in
  out = (([ReplyScanning], AttributeError), snd r) /\
  (forall line, In line (lines_of (fst r)) ->
     hash_in (hash_of sha line) (seen_cards (snd out)) = true) /\
  (forall cs line, In line (lines_of (fst r)) ->
     ~ In (hash_of sha line)
          (map (hash_of sha) (emitted (fst (run sha cs (snd out)))))).
Proof.
  intros Htext args Hlen Hint Hmax rq r Hne Hname out.
  assert (Hout : out = (([ReplyScanning], AttributeError), snd r)).
  { unfold out.
    rewrite (adv_scr_cmd_accepted cfg sha E h message w Htext Hlen Hint Hmax).
    fold args. fold rq. fold r. rewrite Hname. unfold send_results.
    destruct (lines_of (fst r)); [congruence | reflexivity]. }
  split; [exact Hout|].
  assert (Hseen : forall line, In line (lines_of (fst r)) ->
            hash_in (hash_of sha line) (seen_cards (snd out)) = true).
  { intros line Hin. rewrite Hout. cbn [snd].
    destruct (emits_facts (proj1 (scrape_emits sha E rq w))) as (_ & H & _).
    apply H, Hin. }
  split; [exact Hseen|].
  intros cs line Hin Hagain.
  apply in_map_iff in Hagain. destruct Hagain as (line' & Heq & Hin').
  destruct (emits_facts (run_emits sha cs (snd out))) as (_ & H & _).
  destruct (H line' Hin') as [Habs _].
  rewrite Heq, (Hseen line Hin) in Habs. discriminate.
Qed.

Lemma adv_scr_cmd_untitled_chat_witness :
  let cfg := Config 500 100 [] in
  let E := Environ (fun _ => Some (Chat 300 None))
                   (fun _ _ => Yield msg7 Done) (fun n => Z.of_nat n) in
  let message := Command (Some (lit "/advscr someone 10")) None in
  let out := adv_scr_cmd cfg sample_sha E sample_host message empty_db in
  fst out = ([ReplyScanning], AttributeError) /\
  hashes (snd out) = [sample_sha (lit "4111111111111111")] /\
  stored_position 300 (snd out) = Some 7%Z.
Proof.
  intros cfg E message out.
  split; [|split; vm_compute; reflexivity].
  assert (Hlen : 2 <= length (tl (split (lit "/advscr someone 10"))))
    by (vm_compute; lia).
  assert (Hint : int_of_str (nth 1 (tl (split (lit "/advscr someone 10"))) [])
                 = Some 10%Z) by (vm_compute; reflexivity).
  assert (Hmax : (10 <= max_lim cfg (from_user message))%Z)
    by (vm_compute; discriminate).
  assert (Hne : lines_of (fst (scrape_new_messages sample_sha E
                 (request_of (tl (split (lit "/advscr someone 10"))) 10)
                 empty_db)) <> []) by (vm_compute; discriminate).
  assert (Hname : snd (fst (fst (scrape_new_messages sample_sha E
                 (request_of (tl (split (lit "/advscr someone 10"))) 10)
                 empty_db))) = None) by (vm_compute; reflexivity).
  destruct (adv_scr_cmd_untitled_chat cfg sample_sha E sample_host message
              empty_db eq_refl Hlen Hint Hmax Hne Hname) as [Hout _].
  fold out in Hout. rewrite Hout. reflexivity.
Defined.

(** ** Lines and messages *)

Section FeedFacts.

Variable sha : str -> str.
Variable E : environ.
Variable rq : request.

Lemma on_matches_from title pool m t ms : forall l w,
  In m pool -> text_of m = Some t ->
  (forall x, In x ms -> In x (Re.findall pattern t)) ->
  Forall (from_messages pool) (messages_found l) ->
  Forall (from_messages pool)
         (messages_found (fst (on_matches sha E rq title ms l w))).
Proof.
  induction ms as [|x ms IH]; intros l w Hm Ht Hms Hl; simpl; [exact Hl|].
  unfold bind.
  assert (H1 : Forall (from_messages pool)
                 (messages_found (fst (on_match sha E rq title x l w)))).
  { unfold on_match.
    destruct (parse_match x) as [[[[c mo] y] cvv]|] eqn:Hp; [|exact Hl].
    destruct (on_record_cases sha E rq title c mo y cvv l w)
      as [(-> & _) | (_ & _ & -> & _)]; [exact Hl|].
    simpl. apply Forall_app. split; [exact Hl|].
    constructor; [|constructor].
    exists m, t, x, c, mo, y, cvv. repeat split; auto.
    apply Hms. left. reflexivity. }
  destruct (on_match sha E rq title x l w) as [l1 w1]. simpl in H1.
  apply IH; auto. intros z Hz. apply Hms. right. exact Hz.
Qed.

Lemma on_message_from title last pool m l w :
  In m pool ->
  Forall (from_messages pool) (messages_found l) ->
  Forall (from_messages pool)
         (messages_found (fst (on_message sha E rq title last m l w))).
Proof.
  intros Hm Hl. unfold on_message.
  assert (Ht : Forall (from_messages pool) (messages_found (track m l)))
    by (rewrite (proj1 (track_rest m l)); exact Hl).
  destruct (already_scraped last m); [exact Ht|].
  destruct (text_of m) as [[|c t]|] eqn:Htext; try exact Ht.
  destruct (bank_rejects rq (c :: t)); [exact Ht|].
  apply on_matches_from with (m := m) (t := c :: t); auto.
Qed.

Lemma messages_loop_from title last pool f : forall l w,
  (forall m, In m (delivered f) -> In m pool) ->
  Forall (from_messages pool) (messages_found l) ->
  Forall (from_messages pool)
         (messages_found (fst (messages_loop sha E rq title last f l w))).
Proof.
  induction f as [| |m f IH]; intros l w Hf Hl; simpl; try exact Hl.
  destruct (limit rq <=? count l)%Z; [exact Hl|].
  unfold bind.
  assert (H1 : Forall (from_messages pool)
                 (messages_found
                    (fst (on_message sha E rq title last m l w)))).
  { apply on_message_from; [|exact Hl]. apply Hf. left. reflexivity. }
  destruct (on_message sha E rq title last m l w) as [l1 w1]. simpl in H1.
  apply IH; [|exact H1]. intros z Hz. apply Hf. right. exact Hz.
Qed.

(** Seen before, seen after. *)
Lemma grows_keeps_seen l w l' w' h :
  grows sha rq l w l' w' ->
  hash_in h (seen_cards w) = true -> hash_in h (seen_cards w') = true.
Proof.
  intros (new & js & _ & _ & He & _). apply (emits_facts He).
Qed.

Lemma on_record_marks title c mo y cvv l w :
  bin_rejects rq c = false ->
  hash_in (sha c)
    (seen_cards (snd (on_record sha E rq title (c, mo, y, cvv) l w))) = true.
Proof.
  intros Hb.
  destruct (on_record_cases sha E rq title c mo y cvv l w)
    as [(_ & Hs & _ & [[Hb' _]|(_ & Hh & _)]) | (_ & _ & _ & Hs & _)].
  - congruence.
  - rewrite Hs. exact Hh.
  - rewrite Hs, hash_in_app. simpl. rewrite str_eqb_refl, orb_true_r.
    reflexivity.
Qed.

Lemma on_matches_marks title ms : forall l w x c mo y cvv,
  In x ms -> parse_match x = Some (c, mo, y, cvv) ->
  bin_rejects rq c = false ->
  hash_in (sha c)
    (seen_cards (snd (on_matches sha E rq title ms l w))) = true.
Proof.
  induction ms as [|z ms IH]; intros l w x c mo y cvv Hin Hp Hb;
    [destruct Hin|].
  simpl. unfold bind.
  destruct (on_match sha E rq title z l w) as [l1 w1] eqn:H1.
  destruct Hin as [->|Hin]; [|eapply IH; eauto].
  destruct (on_matches sha E rq title ms l1 w1) as [l2 w2] eqn:H2.
  apply on_matches_grows in H2. simpl.
  apply (grows_keeps_seen _ H2).
  unfold on_match in H1. rewrite Hp in H1.
  pose proof (on_record_marks title c mo y cvv l w Hb) as Hm.
  rewrite H1 in Hm. exact Hm.
Qed.

Lemma messages_loop_marks title last f : forall l w m t x c mo y cvv,
  In m (observed sha E rq title last f l w) ->
  already_scraped last m = false ->
  text_of m = Some t -> t <> [] -> bank_rejects rq t = false ->
  In x (Re.findall pattern t) ->
  parse_match x = Some (c, mo, y, cvv) ->
  bin_rejects rq c = false ->
  hash_in (sha c)
    (seen_cards (snd (messages_loop sha E rq title last f l w))) = true.
Proof.
  induction f as [| |z f IH]; intros l w m t x c mo y cvv Hin Hold Ht Hne
    Hbank Hx Hp Hb; simpl in Hin |- *; try destruct Hin.
  destruct (limit rq <=? count l)%Z; [destruct Hin|].
  unfold bind.
  destruct (on_message sha E rq title last z l w) as [l1 w1] eqn:H1.
  destruct Hin as [->|Hin]; [|eapply IH; eauto].
  destruct (messages_loop sha E rq title last f l1 w1) as [l2 w2] eqn:H2.
  apply messages_loop_grows in H2. simpl.
  apply (grows_keeps_seen _ H2).
  unfold on_message in H1. rewrite Hold, Ht in H1.
  destruct t as [|a t]; [congruence|]. rewrite Hbank in H1.
  assert (Hm : hash_in (sha c)
                 (seen_cards
                    (snd (on_matches sha E rq title
                            (Re.findall pattern (a :: t)) (track m l) w)))
               = true) by (eapply on_matches_marks; eauto).
  rewrite H1 in Hm. exact Hm.
Qed.

End FeedFacts.

(** X18. No line is made up: every line a scan returns is the record of
    a coarse match found in the text, or for want of text the caption, of
    a message the feed delivered. *)
Theorem lines_come_from_messages (sha : str -> str) E rq ch w line :
  get_chat E (channel_username rq) = Some ch ->
  In line (lines_of (fst (scrape_new_messages sha E rq w))) ->
  from_messages (delivered (search_messages E (chat_id ch) (limit rq * 5)))
                line.
Proof.
  intros Hch. rewrite (scrape_resolved sha E rq w Hch). cbv zeta.
  unfold lines_of. cbn [fst]. intros Hin.
  assert (H : Forall
                (from_messages
                   (delivered (search_messages E (chat_id ch) (limit rq * 5))))
                (messages_found
                   (fst (messages_loop sha E rq (chat_title ch)
                           (stored_position (chat_id ch) w)
                           (search_messages E (chat_id ch) (limit rq * 5))
                           (Locals [] 0 (stored_position (chat_id ch) w))
                           (logged (SelectLast (chat_id ch)) w)))))
    by (apply messages_loop_from; [auto | constructor]).
  rewrite Forall_forall in H. apply H, Hin.
Qed.

Lemma lines_come_from_messages_witness :
  let E := sample_env (Yield msg9 Done) in
  let line := lit "5500000000000004|03|27|1234" in
  In line (lines_of (fst (scrape_new_messages sample_sha E sample_rq
                            empty_db))) /\
  from_messages [msg9] line.
Proof.
  intros E line.
  assert (Hin : In line (lines_of (fst (scrape_new_messages sample_sha E
                                          sample_rq empty_db))))
    by (vm_compute; right; left; reflexivity).
  split; [exact Hin|].
  exact (lines_come_from_messages sample_sha E sample_rq (ch := sample_chat)
           empty_db line eq_refl Hin).
Defined.

(** X19. No record of a processed message is dropped: take a message the
    scan observed that is above the checkpoint and passes the bank filter;
    every record in it that passes the BIN filter has its hash in
    [seen_cards] when the scan ends, because it was there before or
    because this scan returns a line for it. *)
Theorem processed_records_are_kept (sha : str -> str) E rq ch w
        m t x c mo y cvv :
  get_chat E (channel_username rq) = Some ch ->
  In m (scan_observed sha E rq ch w) ->
  already_scraped (stored_position (chat_id ch) w) m = false ->
  text_of m = Some t -> t <> [] -> bank_rejects rq t = false ->
  In x (Re.findall pattern t) ->
  parse_match x = Some (c, mo, y, cvv) ->
  bin_rejects rq c = false ->
  let out := scrape_new_messages sha E rq w in
  hash_in (sha c) (seen_cards (snd out)) = true /\
  (hash_in (sha c) (seen_cards w) = true \/
   In (sha c) (map (hash_of sha) (lines_of (fst out)))).
Proof.
  intros Hch Hin Hold Ht Hne Hbank Hx Hp Hb out.
  assert (Hseen : hash_in (sha c) (seen_cards (snd out)) = true).
  { unfold out. rewrite (scrape_resolved sha E rq w Hch). cbv zeta.
    assert (Hm : hash_in (sha c)
                   (seen_cards
                      (snd (messages_loop sha E rq (chat_title ch)
                              (stored_position (chat_id ch) w)
                              (search_messages E (chat_id ch) (limit rq * 5))
                              (Locals [] 0 (stored_position (chat_id ch) w))
                              (logged (SelectLast (chat_id ch)) w)))) = true)
      by (eapply messages_loop_marks; eauto).
    destruct (messages_loop sha E rq (chat_title ch)
                (stored_position (chat_id ch) w)
                (search_messages E (chat_id ch) (limit rq * 5))
                (Locals [] 0 (stored_position (chat_id ch) w))
                (logged (SelectLast (chat_id ch)) w)) as [l w1].
    cbn [fst snd] in *.
    destruct (newest_msg_id_in_this_run l) as [n|]; [|exact Hm].
    match goal with |- context [if ?b then _ else _] => destruct b end;
      [|exact Hm].
    rewrite update_last_msg_id_run. exact Hm. }
  split; [exact Hseen|].
  destruct (proj1 (scrape_emits sha E rq w)) as (rows & Hs & Hmap & _).
  fold out in Hs, Hmap. rewrite Hs, hash_in_app in Hseen.
  apply orb_true_iff in Hseen. destruct Hseen as [H|H]; [left; exact H|].
  right. rewrite <- Hmap. apply hash_in_In. exact H.
Qed.

Lemma processed_records_are_kept_witness :
  let E := sample_env (Yield msg7 Done) in
  let t := lit "4111111111111111 12/25 123" in
  let c := lit "4111111111111111" in
  In msg7 (scan_observed sample_sha E sample_rq sample_chat empty_db) /\
  parse_match t = Some (c, lit "12", lit "25", lit "123") /\
  hash_in (sample_sha c)
    (seen_cards (snd (scrape_new_messages sample_sha E sample_rq empty_db)))
  = true.
Proof.
  intros E t c.
  assert (Hin : In msg7 (scan_observed sample_sha E sample_rq sample_chat
                           empty_db)) by (vm_compute; left; reflexivity).
  assert (Hp : parse_match t = Some (c, lit "12", lit "25", lit "123"))
    by (vm_compute; reflexivity).
  assert (Hx : In t (Re.findall pattern t))
    by (vm_compute; left; reflexivity).
  split; [exact Hin|]. split; [exact Hp|].
  assert (Hne : t <> []) by discriminate.
  exact (proj1 (@processed_records_are_kept sample_sha E sample_rq
                  sample_chat empty_db msg7 t t c (lit "12") (lit "25")
                  (lit "123")
                  eq_refl Hin eq_refl eq_refl Hne eq_refl Hx Hp eq_refl)).
Defined.

(** ** The lines, from the text they were read in *)

(** The four fields of a record, as the digit runs of its coarse match:
    their lengths, and the year field as the last two characters of the
    year run. *)
Lemma parse_match_fields x c mo yy cvv :
  Re.matches pattern x ->
  parse_match x = Some (c, mo, yy, cvv) ->
  exists year cut,
    Re.findall digit_run x = [c; mo; year; cvv] /\
    length c = 16 /\ length mo = 2 /\ 2 <= length year <= 4 /\
    3 <= length cvv <= 4 /\
    year = cut ++ yy /\ length yy = 2.
Proof.
  intros Hm Hp.
  destruct (Runs.pattern_coarse Hm)
    as (d16 & s1 & d2 & s2 & dy & s3 & dc & -> & Hc).
  pose proof (Runs.coarse_runs Hc) as Hruns.
  unfold parse_match in Hp. rewrite Hruns in Hp |- *.
  destruct Hc as (_ & L1 & _ & _ & L2 & _ & _ & L3 & _ & _ & L4).
  destruct s1 as [|a1 s1], s2 as [|a2 s2], s3 as [|a3 s3];
    simpl in Hp; try discriminate Hp.
  injection Hp as <- <- <- <-.
  destruct (last2_spec dy (proj1 L3)) as (cut & Hcut & Hlen).
  exists dy, cut. simpl. repeat split; auto; lia.
Qed.

(** X10. Every line a scan returns was read in a message the feed of the
    resolved source delivered: in the text of that message, or for want
    of text its caption, [findall] of the pattern gives a match whose
    runs of [\d] are exactly four, of 16, 2, 2 to 4, and 3 or 4
    characters; the line is the first run, a bar, the second run, a bar,
    the last two characters of the third run, a bar and the fourth run,
    26 or 27 characters in all. So a year written with three or four
    digits loses all but its last two, and a year of two is kept. *)
Theorem emitted_line_format (sha : str -> str) E rq w line :
  In line (lines_of (fst (scrape_new_messages sha E rq w))) ->
  exists ch m t x c mo year cvv cut yy,
    get_chat E (channel_username rq) = Some ch /\
    In m (delivered (search_messages E (chat_id ch) (limit rq * 5))) /\
    text_of m = Some t /\
    In x (Re.findall pattern t) /\
    Re.findall digit_run x = [c; mo; year; cvv] /\
    length c = 16 /\ length mo = 2 /\ 2 <= length year <= 4 /\
    3 <= length cvv <= 4 /\
    year = cut ++ yy /\ length yy = 2 /\
    line = c ++ bar ++ mo ++ bar ++ yy ++ bar ++ cvv /\
    (length line = 26 \/ length line = 27).
Proof.
  intros Hin.
  destruct (get_chat E (channel_username rq)) as [ch|] eqn:Hch.
  2:{ rewrite (scrape_unresolved sha E rq w Hch) in Hin. destruct Hin. }
  rewrite (scrape_resolved sha E rq w Hch) in Hin. cbv zeta in Hin.
  unfold lines_of in Hin. cbn [fst] in Hin.
  assert (H : Forall
                (from_messages
                   (delivered (search_messages E (chat_id ch) (limit rq * 5))))
                (messages_found
                   (fst (messages_loop sha E rq (chat_title ch)
                           (stored_position (chat_id ch) w)
                           (search_messages E (chat_id ch) (limit rq * 5))
                           (Locals [] 0 (stored_position (chat_id ch) w))
                           (logged (SelectLast (chat_id ch)) w)))))
    by (apply messages_loop_from; [auto | constructor]).
  rewrite Forall_forall in H.
  destruct (H line Hin) as (m & t & x & c & mo & yy & cvv &
                            Hm & Ht & Hx & Hp & ->).
  destruct (@parse_match_fields x c mo yy cvv
              (proj1 (ReFacts.findall_sound _ _ _ Hx)) Hp)
    as (year & cut & Hruns & L1 & L2 & L3 & L4 & Hcut & Lyy).
  exists ch, m, t, x, c, mo, year, cvv, cut, yy.
  repeat (split; [assumption || reflexivity || lia|]).
  unfold formatted, bar. rewrite !length_app. simpl. lia.
Qed.

Lemma emitted_line_format_witness :
  let E := sample_env (Yield msg9 Done) in
  let line := lit "5500000000000004|03|27|1234" in
  In line (lines_of (fst (scrape_new_messages sample_sha E sample_rq
                            empty_db))) /\
  exists x year cut yy,
    In x (Re.findall pattern
            (lit "4111111111111111|01|2030|999 5500000000000004 03-2027 1234"))
    /\ Re.findall digit_run x =
       [lit "5500000000000004"; lit "03"; year; lit "1234"] /\
    year = lit "2027" /\ year = cut ++ yy /\ length yy = 2 /\
    line = lit "5500000000000004|03|" ++ yy ++ lit "|1234".
Proof.
  intros E line.
  assert (Hin : In line (lines_of (fst (scrape_new_messages sample_sha E
                                          sample_rq empty_db))))
    by (vm_compute; right; left; reflexivity).
  split; [exact Hin|].
  destruct (emitted_line_format sample_sha E sample_rq empty_db line Hin)
    as (ch & m & t & x & c & mo & year & cvv & cut & yy &
        Hch & Hm & Ht & Hx & Hruns & L1 & L2 & L3 & L4 & Hcut & Lyy &
        Hline & _).
  vm_compute in Hm. destruct Hm as [<- | []].
  vm_compute in Ht. injection Ht as <-.
  exists x, year, cut, yy.
  split; [exact Hx|].
  vm_compute in Hx. destruct Hx as [<- | [<- | []]].
  - vm_compute in Hruns. injection Hruns as <- <- <- <-.
    vm_compute in Hline. discriminate Hline.
  - vm_compute in Hruns. injection Hruns as <- <- <- <-.
    split; [vm_compute; reflexivity|]. split; [vm_compute; reflexivity|].
    split; [exact Hcut|]. split; [exact Lyy|]. exact Hline.
Defined.
